(** * checkstyle-github-action: the annotation reporting pipeline of [src/main.ts]

    A shallow embedding of [run], [getConclusion] and [createCheck], with the
    Ramda helpers they call ([splitEvery], [groupBy], [chain]) and the
    functions of [@actions/core] that decide the control flow ([getInput],
    [setFailed]).  The build log, the calls to the collaborators and the
    remote check service are explicit: an action is a function from a world
    to a completion (normal or thrown) and a new world. *)

From Stdlib Require Import Ascii ZArith Lia.
From Equations Require Import Equations.
From stdpp Require Import base list strings gmap pretty.

Local Open Scope string_scope.
Local Open Scope list_scope.
Local Open Scope nat_scope.

(** ** Data model ([./github], [./constants], [./search]) *)

Module AnnotationLevel.
(** Modelled from the spec: the enum [AnnotationLevel] of [./github], whose
    members are the strings [notice], [warning] and [failure]. *)
Inductive t := notice | warning | failure.

Definition value (l : t) : string :=
  match l with
  | notice => "notice"
  | warning => "warning"
  | failure => "failure"
  end.

Definition eqb (a b : t) : bool :=
  match a, b with
  | notice, notice | warning, warning | failure, failure => true
  | _, _ => false
  end.
End AnnotationLevel.

(** Modelled from the spec: the interface [Annotation] of [./github]. *)
Record Annotation := mkAnnotation {
  path : string;
  start_line : Z;
  end_line : Z;
  start_column : option Z;
  end_column : option Z;
  annotation_level : AnnotationLevel.t;
  message : string;
  title : option string
}.

Module Conclusion.
(** The return type of [getConclusion]: ['success' | 'failure' | 'neutral']. *)
Inductive t := success | failure | neutral.

Definition value (c : t) : string :=
  match c with
  | success => "success"
  | failure => "failure"
  | neutral => "neutral"
  end.
End Conclusion.

(** ** Thrown values and completions *)

(** A JavaScript [Error] object, reduced to its name and its message. *)
Record JsError := mkJsError { err_name : string; err_message : string }.

(** [new Error(message)]. *)
Definition mkError (message : string) : JsError := mkJsError "Error" message.

(** [Error.prototype.toString]: the message alone when the name is empty,
    the name alone when the message is empty, [<name>: <message>]
    otherwise. *)
Definition Error_toString (e : JsError) : string :=
  if String.eqb (err_name e) EmptyString then err_message e
  else if String.eqb (err_message e) EmptyString then err_name e
  else err_name e +:+ ": " +:+ err_message e.

Inductive Result (A : Type) :=
| Ok (a : A)
| Throw (e : JsError).
Arguments Ok {A} a.
Arguments Throw {A} e.

(** ** Ramda: [slice], [splitEvery], [groupBy] *)

(** [slice(from, to, list)] for [0 <= from <= to]. *)
Definition slice {A} (from to : nat) (l : list A) : list A :=
  take (to - from) (drop from l).

(** The [while (idx < list.length)] loop of [splitEvery], for [n = S m]. *)
Equations? splitEvery_loop {A} (m : nat) (l : list A) (idx : nat)
    (result : list (list A)) : list (list A) by wf (length l - idx) lt :=
  splitEvery_loop m l idx result with lt_dec idx (length l) => {
    | left _ := splitEvery_loop m l (idx + S m)
                  (result ++ [slice idx (idx + S m) l]);
    | right _ := result }.
Proof. lia. Qed.

Definition splitEvery {A} (n : nat) (l : list A) : Result (list (list A)) :=
  match n with
  | 0 => Throw (mkError "First argument to splitEvery must be a positive integer")
  | S m => Ok (splitEvery_loop m l 0 [])
  end.

(** [groupBy(fn, list)]: an object whose key [fn x] holds, in order, the
    elements [x] of [list] with that key. *)
Definition groupBy {A} (fn : A -> string) (l : list A) : gmap string (list A) :=
  foldl (fun acc x => <[fn x := default [] (acc !! fn x) ++ [x]]> acc) ∅ l.

(** ** Batcher ([run], lines 43-46) *)

Definition MAX_ANNOTATIONS_PER_REQUEST : nat := 50.

Definition groupAnnotations (limit : nat) (annotations : list Annotation)
  : Result (list (list Annotation)) :=
  if limit <? length annotations
  then splitEvery limit annotations
  else Ok [annotations].

(** ** Verdict Calculator ([getConclusion]) *)

(** [x && x.length] for an array or [undefined]. *)
Definition truthy_length {A} (x : option (list A)) : bool :=
  match x with
  | Some l => negb (length l =? 0)
  | None => false
  end.

Definition getConclusion (annotations : list Annotation) : Conclusion.t :=
  if length annotations =? 0 then Conclusion.success
  else
    let annotationsByLevel :=
      groupBy (fun a => AnnotationLevel.value (annotation_level a)) annotations in
    if truthy_length (annotationsByLevel !! AnnotationLevel.value AnnotationLevel.failure)
    then Conclusion.failure
    else if truthy_length (annotationsByLevel !! AnnotationLevel.value AnnotationLevel.warning)
    then Conclusion.neutral
    else Conclusion.success.

(** ** The environment of a run *)

Module Inputs.
(** Modelled from the spec: the enum [Inputs] of [./constants], the names
    of the five configuration inputs. *)
Inductive t := Name | Title | Path | Token | Mode.

Definition value (i : t) : string :=
  match i with
  | Name => "name"
  | Title => "title"
  | Path => "path"
  | Token => "token"
  | Mode => "mode"
  end.
End Inputs.

(** Modelled from the spec: the result type of [findResults] in [./search]. *)
Record SearchResult := mkSearchResult {
  filesToUpload : list string;
  rootDirectory : string
}.

(** [context.repo] of [@actions/github]. *)
Record Repo := mkRepo { owner : string; repo : string }.

(** [context.payload.pull_request], reduced to [head.sha]. *)
Record PullRequest := mkPullRequest { head_sha : string }.

(** [context] of [@actions/github]. *)
Record Context := mkContext {
  sha : string;
  payload_pull_request : option PullRequest;
  context_repo : Repo
}.

(** What a run reads and never changes: the [INPUT_*] variables of the
    process, the GitHub context, and the two local collaborators, which read
    the file system and may throw. *)
Record Env := mkEnv {
  INPUT : Inputs.t -> string;
  context : Context;
  findResults : string -> Result SearchResult;
  annotationsForPath : string -> Result (list Annotation)
}.

(** ** Requests of the checks API *)

Inductive CheckStatus := queued | in_progress | completed.

Record CheckOutput := mkOutput {
  output_title : string;
  summary : string;
  output_annotations : list Annotation
}.

Record ListForRefRequest := mkListForRef {
  list_repo : Repo;
  ref : string
}.

Record CreateRequest := mkCreate {
  create_repo : Repo;
  create_head_sha : string;
  create_conclusion : Conclusion.t;
  create_name : string;
  create_status : CheckStatus;
  create_output : CheckOutput
}.

Record UpdateRequest := mkUpdate {
  update_repo : Repo;
  update_conclusion : Conclusion.t;
  check_run_id : Z;
  update_status : CheckStatus;
  update_output : CheckOutput
}.

Module CheckRun.
(** An element of [res.data.check_runs], reduced to the fields read. *)
Record t := mk { id : Z; name : string }.
End CheckRun.

(** [@actions/github]: [getOctokit(token)] builds a client or throws; each
    call of the client answers from the state of the remote service and may
    change it. *)
Class Octokit (R : Type) := {
  Client : Type;
  getOctokit : string -> Result Client;
  checks_listForRef : Client -> ListForRefRequest -> R -> Result (list CheckRun.t) * R;
  checks_create : Client -> CreateRequest -> R -> Result unit * R;
  checks_update : Client -> UpdateRequest -> R -> Result unit * R
}.

(** ** Worlds and actions *)

(** The properties object passed to [command.issueCommand]. *)
Record CommandProperties := mkProps {
  file : string;
  line : Z;
  col : option Z
}.

(** What a run does that can be observed, in order: lines of the build log,
    workflow commands, and the calls to the collaborators with their
    completions. *)
Inductive Event :=
| core_debug (msg : string)
| core_info (msg : string)
| core_warning (msg : string)
| core_error (msg : string)
| command_issueCommand (cmd : string) (props : CommandProperties) (msg : string)
| call_findResults (p : string) (r : Result SearchResult)
| call_annotationsForPath (f : string) (r : Result (list Annotation))
| call_listForRef (req : ListForRefRequest) (r : Result (list CheckRun.t))
| call_create (req : CreateRequest) (r : Result unit)
| call_update (req : UpdateRequest) (r : Result unit).

(** [process.exitCode]. *)
Inductive ExitCode := Success | Failure.

Record World (R : Type) := mkWorld {
  trace : list Event;
  remote : R;
  exitCode : ExitCode
}.
Arguments mkWorld {R} trace remote exitCode.
Arguments trace {R} w.
Arguments remote {R} w.
Arguments exitCode {R} w.

(** The world in which the process starts. *)
Definition init_world {R} (r : R) : World R := mkWorld [] r Success.

Definition Action (R A : Type) : Type := World R -> Result A * World R.

Definition ret {R A} (a : A) : Action R A := fun w => (Ok a, w).

Definition bind {R A B} (m : Action R A) (k : A -> Action R B) : Action R B :=
  fun w =>
    match m w with
    | (Ok a, w') => k a w'
    | (Throw e, w') => (Throw e, w')
    end.

Notation "x <- m ;; k" := (bind m (fun x => k))
  (at level 100, m at next level, right associativity, only parsing).
Notation "m ;;; k" := (bind m (fun _ => k))
  (at level 100, right associativity, only parsing).

(** [try { m } catch (error) { h(error) }]. *)
Definition try_catch {R A} (m : Action R A) (h : JsError -> Action R A) : Action R A :=
  fun w =>
    match m w with
    | (Ok a, w') => (Ok a, w')
    | (Throw e, w') => h e w'
    end.

(** A synchronous or awaited value that may be a thrown error. *)
Definition lift {R A} (r : Result A) : Action R A := fun w => (r, w).

Definition emit {R} (ev : Event) : Action R unit :=
  fun w => (Ok tt, mkWorld (trace w ++ [ev]) (remote w) (exitCode w)).

(** [for (const x of l) { await body(x) }]. *)
Fixpoint for_of {R A} (l : list A) (body : A -> Action R unit) : Action R unit :=
  match l with
  | [] => ret tt
  | x :: rest => body x ;;; for_of rest body
  end.

(** Ramda's [map(fn, list)] for an [fn] that may throw. *)
Fixpoint map_list {R A B} (fn : A -> Action R B) (l : list A) : Action R (list B) :=
  match l with
  | [] => ret []
  | x :: rest => y <- fn x ;; ys <- map_list fn rest ;; ret (y :: ys)
  end.

(** Ramda's [chain(fn, list)]: [map] and flatten one level. *)
Definition chain {R A B} (fn : A -> Action R (list B)) (l : list A) : Action R (list B) :=
  ys <- map_list fn l ;; ret (concat ys).

(** ** [@actions/core] *)

(** [String.prototype.trim] removes, at both ends, every code point that is
    ECMAScript [WhiteSpace] or [LineTerminator].  A string is its UTF-8
    bytes, so these code points are sequences of one, two or three bytes. *)

(** U+0009 TAB, U+000A LF, U+000B VT, U+000C FF, U+000D CR, U+0020 SPACE. *)
Definition is_white_space (c : ascii) : bool :=
  let n := nat_of_ascii c in
  (n =? 9) || (n =? 10) || (n =? 11) || (n =? 12) || (n =? 13) || (n =? 32).

(** U+00A0 NO-BREAK SPACE: C2 A0. *)
Definition is_white_space2 (c1 c2 : ascii) : bool :=
  (nat_of_ascii c1 =? 194) && (nat_of_ascii c2 =? 160).

(** U+1680: E1 9A 80.  U+2000 to U+200A, U+2028, U+2029, U+202F: E2 80 and
    80 to 8A, A8, A9, AF.  U+205F: E2 81 9F.  U+3000: E3 80 80.
    U+FEFF: EF BB BF. *)
Definition is_white_space3 (c1 c2 c3 : ascii) : bool :=
  let n1 := nat_of_ascii c1 in
  let n2 := nat_of_ascii c2 in
  let n3 := nat_of_ascii c3 in
  ((n1 =? 225) && (n2 =? 154) && (n3 =? 128))
  || ((n1 =? 226) && (n2 =? 128)
      && (((128 <=? n3) && (n3 <=? 138)) || (n3 =? 168) || (n3 =? 169) || (n3 =? 175)))
  || ((n1 =? 226) && (n2 =? 129) && (n3 =? 159))
  || ((n1 =? 227) && (n2 =? 128) && (n3 =? 128))
  || ((n1 =? 239) && (n2 =? 187) && (n3 =? 191)).

(** Removes the white space at the start of a string whose multi-byte white
    space is recognised by [w2] and [w3]. *)
Fixpoint trim_front (w2 : ascii -> ascii -> bool) (w3 : ascii -> ascii -> ascii -> bool)
    (s : string) : string :=
  match s with
  | EmptyString => EmptyString
  | String c1 s1 =>
      if is_white_space c1 then trim_front w2 w3 s1
      else
        match s1 with
        | EmptyString => s
        | String c2 s2 =>
            if w2 c1 c2 then trim_front w2 w3 s2
            else
              match s2 with
              | EmptyString => s
              | String c3 s3 => if w3 c1 c2 c3 then trim_front w2 w3 s3 else s
              end
        end
  end.

Fixpoint reverse_onto (s acc : string) : string :=
  match s with
  | EmptyString => acc
  | String c s' => reverse_onto s' (String c acc)
  end.

Definition reverse (s : string) : string := reverse_onto s EmptyString.

Definition trimStart (s : string) : string :=
  trim_front is_white_space2 is_white_space3 s.

(** The end of a string is the start of its reverse, where the bytes of a
    code point come last byte first. *)
Definition trimEnd (s : string) : string :=
  reverse (trim_front (fun c2 c1 => is_white_space2 c1 c2)
             (fun c3 c2 c1 => is_white_space3 c1 c2 c3)
             (reverse s)).

Definition trim (s : string) : string := trimEnd (trimStart s).

(** [core.getInput(name, {required})]: the variable [INPUT_<NAME>] of the
    process, trimmed; a required input that is empty throws. *)
Definition core_getInput {R} (env : Env) (i : Inputs.t) (required : bool) : Action R string :=
  let val := INPUT env i in
  if required && String.eqb val EmptyString
  then lift (Throw (mkError ("Input required and not supplied: " +:+ Inputs.value i)))
  else ret (trim val).

(** [core.setFailed(error)]: sets the exit code of the process and writes
    the error to the log. *)
Definition core_setFailed {R} (error : JsError) : Action R unit :=
  fun w => (Ok tt, mkWorld (trace w ++ [core_error (Error_toString error)]) (remote w) Failure).

(** ** The collaborators as actions *)

Definition await_findResults {R} (env : Env) (p : string) : Action R SearchResult :=
  let r := findResults env p in
  emit (call_findResults p r) ;;; lift r.

Definition call_annotations {R} (env : Env) (f : string) : Action R (list Annotation) :=
  let r := annotationsForPath env f in
  emit (call_annotationsForPath f r) ;;; lift r.

Definition octokit_call {R A Req} (op : Req -> R -> Result A * R)
    (ev : Req -> Result A -> Event) (req : Req) : Action R A :=
  fun w =>
    let '(r, s) := op req (remote w) in
    (r, mkWorld (trace w ++ [ev req r]) s (exitCode w)).

Definition await_listForRef {R} `{Octokit R} (octokit : Client) :=
  octokit_call (checks_listForRef octokit) call_listForRef.

Definition await_create {R} `{Octokit R} (octokit : Client) :=
  octokit_call (checks_create octokit) call_create.

Definition await_update {R} `{Octokit R} (octokit : Client) :=
  octokit_call (checks_update octokit) call_update.

(** ** Check Reporter ([createCheck]) *)

Definition violations_found (numErrors : nat) : string :=
  pretty numErrors +:+ " violation(s) found".

(** The commit reported against: the head of the pull request when there is
    one, the triggering commit otherwise. *)
Definition resolved_sha (env : Env) : string :=
  match payload_pull_request (context env) with
  | Some pull_request => head_sha pull_request
  | None => sha (context env)
  end.

Definition createCheck {R} `{Octokit R} (env : Env) (name title : string)
    (annotations : list Annotation) (numErrors : nat)
    (conclusion : Conclusion.t) : Action R unit :=
  emit (core_info ("Uploading " +:+ pretty (length annotations) +:+ " / "
          +:+ pretty numErrors +:+ " annotations to GitHub as " +:+ name
          +:+ " with conclusion " +:+ Conclusion.value conclusion)) ;;;
  token <- core_getInput env Inputs.Token false ;;
  octokit <- lift (getOctokit token) ;;
  let sha := resolved_sha env in
  let req := mkListForRef (context_repo (context env)) sha in
  check_runs <- await_listForRef octokit req ;;
  let existingCheckRun :=
    List.find (fun check => String.eqb (CheckRun.name check) name) check_runs in
  match existingCheckRun with
  | None =>
      let createRequest :=
        mkCreate (context_repo (context env)) sha conclusion name completed
          (mkOutput title (violations_found numErrors) annotations) in
      await_create octokit createRequest
  | Some existing =>
      let check_run_id := CheckRun.id existing in
      let update_req :=
        mkUpdate (context_repo (context env)) conclusion check_run_id completed
          (mkOutput title (violations_found numErrors) annotations) in
      await_update octokit update_req
  end.

(** ** Inline Emitter (the [for] loop of [run], lines 63-85) *)

Definition inline_log_line (annotation : Annotation) : string :=
  "[Checkstyle " +:+ AnnotationLevel.value (annotation_level annotation) +:+ "] "
    +:+ path annotation +:+ ":" +:+ pretty (start_line annotation) +:+ " "
    +:+ message annotation.

Definition emit_inline {R} (annotation : Annotation) : Action R unit :=
  let commandName := "error" in
  emit (core_info (inline_log_line annotation)) ;;;
  if negb (AnnotationLevel.eqb (annotation_level annotation) AnnotationLevel.failure)
  then ret tt
  else emit (command_issueCommand commandName
               (mkProps (path annotation) (start_line annotation) (start_column annotation))
               (message annotation)).

(** ** Pipeline Controller ([run]) *)

(** The double quote, for the message about the mode. *)
Definition dquote : string := String "034"%char EmptyString.

Definition run {R} `{Octokit R} (env : Env) : Action R unit :=
  try_catch
    (path <- core_getInput env Inputs.Path true ;;
     mode <- core_getInput env Inputs.Mode false ;;
     name <- core_getInput env Inputs.Name false ;;
     title <- core_getInput env Inputs.Title false ;;
     if negb (String.eqb mode "inline") && negb (String.eqb mode "separate")
     then
       emit (core_error ("Invalid mode provided (" +:+ mode +:+ "). Use "
               +:+ dquote +:+ "inline" +:+ dquote +:+ " or "
               +:+ dquote +:+ "separate" +:+ dquote +:+ "."))
     else
       searchResult <- await_findResults env path ;;
       if length (filesToUpload searchResult) =? 0
       then
         emit (core_warning ("No files were found for the provided path: " +:+ path
                 +:+ ". No results will be uploaded."))
       else
         emit (core_info ("With the provided path, there will be "
                 +:+ pretty (length (filesToUpload searchResult))
                 +:+ " results uploaded")) ;;;
         emit (core_debug ("Root artifact directory is "
                 +:+ rootDirectory searchResult)) ;;;
         annotations <- chain (call_annotations env) (filesToUpload searchResult) ;;
         emit (core_debug ("Grouping " +:+ pretty (length annotations)
                 +:+ " annotations into chunks of "
                 +:+ pretty MAX_ANNOTATIONS_PER_REQUEST)) ;;;
         groupedAnnotations <-
           lift (groupAnnotations MAX_ANNOTATIONS_PER_REQUEST annotations) ;;
         emit (core_debug ("Created " +:+ pretty (length groupedAnnotations)
                 +:+ " buckets")) ;;;
         if String.eqb mode "separate"
         then
           let conclusion := getConclusion annotations in
           for_of groupedAnnotations (fun annotationSet =>
             createCheck env name title annotationSet (length annotations) conclusion)
         else if String.eqb mode "inline"
         then for_of annotations emit_inline
         else ret tt)
    (fun error => core_setFailed error).

(** ** A test double of the checks service

    The theorems below hold for every [Octokit]; the examples run the
    pipeline against this in-memory service: a client is its token, which
    must not be empty; the service keeps the check runs of the commit in
    creation order, and fails every write once [writes_left] is used up. *)

Record Service := mkService {
  check_runs : list CheckRun.t;
  next_id : Z;
  writes_left : nat
}.

(** The error of a rejected request: octokit's [RequestError], whose name is
    [HttpError]. *)
Definition service_unavailable : JsError := mkJsError "HttpError" "Service Unavailable".

Definition token_required : JsError := mkError "Parameter token or opts.auth is required".

#[export] Instance Service_octokit : Octokit Service := {|
  Client := string;
  getOctokit token :=
    if String.eqb token EmptyString then Throw token_required else Ok token;
  checks_listForRef _ _ s := (Ok (check_runs s), s);
  checks_create _ req s :=
    match writes_left s with
    | 0 => (Throw service_unavailable, s)
    | S n =>
        (Ok tt, mkService (check_runs s ++ [CheckRun.mk (next_id s) (create_name req)])
                  (next_id s + 1) n)
    end;
  checks_update _ req s :=
    match writes_left s with
    | 0 => (Throw service_unavailable, s)
    | S n => (Ok tt, mkService (check_runs s) (next_id s) n)
    end
|}.

(** ** Vocabulary of the statements *)

(** A write request, reduced to the report it targets (none for a create),
    its conclusion, its status and its output. *)
Record Write := mkWrite {
  target : option Z;
  written_conclusion : Conclusion.t;
  written_status : CheckStatus;
  written_output : CheckOutput
}.

Definition write_request (ev : Event) : option Write :=
  match ev with
  | call_create req _ =>
      Some (mkWrite None (create_conclusion req) (create_status req) (create_output req))
  | call_update req _ =>
      Some (mkWrite (Some (check_run_id req)) (update_conclusion req)
              (update_status req) (update_output req))
  | _ => None
  end.

(** The write requests of a trace, in order. *)
Definition write_requests (t : list Event) : list Write := omap write_request t.

(** The batches of annotations submitted by the write requests of a trace. *)
Definition submitted (t : list Event) : list (list Annotation) :=
  map (fun wr => output_annotations (written_output wr)) (write_requests t).

(** The error a collaborator call completed with, if it threw. *)
Definition thrown {A} (r : Result A) : option JsError :=
  match r with
  | Ok _ => None
  | Throw e => Some e
  end.

(** The error of a create or update call that threw. *)
Definition failed_write (ev : Event) : option JsError :=
  match ev with
  | call_create _ r => thrown r
  | call_update _ r => thrown r
  | _ => None
  end.

Definition is_remote_call (ev : Event) : bool :=
  match ev with
  | call_listForRef _ _ | call_create _ _ | call_update _ _ => true
  | _ => false
  end.

Definition is_inline_diagnostic (ev : Event) : bool :=
  match ev with
  | command_issueCommand _ _ _ => true
  | _ => false
  end.

Definition is_info_line (ev : Event) : bool :=
  match ev with
  | core_info _ => true
  | _ => false
  end.

(** Some annotation of the list has the given level. *)
Definition has_level (level : AnnotationLevel.t) (annotations : list Annotation) : bool :=
  existsb (fun a => AnnotationLevel.eqb (annotation_level a) level) annotations.

(** The error of a call to any collaborator that threw. *)
Definition failed_call (ev : Event) : option JsError :=
  match ev with
  | call_findResults _ r => thrown r
  | call_annotationsForPath _ r => thrown r
  | call_listForRef _ r => thrown r
  | call_create _ r => thrown r
  | call_update _ r => thrown r
  | _ => None
  end.

(** What [chain(annotationsForPath, files)] returns: the annotations of the
    files in order, or the error of the first file that cannot be parsed. *)
Fixpoint parse_all (env : Env) (files : list string) : Result (list (list Annotation)) :=
  match files with
  | [] => Ok []
  | f :: rest =>
      match annotationsForPath env f with
      | Throw e => Throw e
      | Ok anns =>
          match parse_all env rest with
          | Throw e => Throw e
          | Ok more => Ok (anns :: more)
          end
      end
  end.

(** The calls to the parser that [chain] makes: one per file, up to and
    including the first that throws. *)
Fixpoint parse_events (env : Env) (files : list string) : list Event :=
  match files with
  | [] => []
  | f :: rest =>
      call_annotationsForPath f (annotationsForPath env f)
      :: match annotationsForPath env f with
         | Throw _ => []
         | Ok _ => parse_events env rest
         end
  end.

(** The events of a run between reading the inputs and dispatching on the
    mode, when files are found and parsed into [annotations], grouped into
    [buckets] batches. *)
Definition preamble (env : Env) (searchResult : SearchResult)
    (annotations : list Annotation) (buckets : nat) : list Event :=
  [ call_findResults (trim (INPUT env Inputs.Path)) (Ok searchResult);
    core_info ("With the provided path, there will be "
                 +:+ pretty (length (filesToUpload searchResult)) +:+ " results uploaded");
    core_debug ("Root artifact directory is " +:+ rootDirectory searchResult) ]
  ++ parse_events env (filesToUpload searchResult)
  ++ [ core_debug ("Grouping " +:+ pretty (length annotations)
                     +:+ " annotations into chunks of "
                     +:+ pretty MAX_ANNOTATIONS_PER_REQUEST);
       core_debug ("Created " +:+ pretty buckets +:+ " buckets") ].

(** A run that gets as far as the dispatch on [mode]: the required path is
    supplied, the search finds files, and they parse into [annotations]. *)
Definition reaches_dispatch (env : Env) (mode : string) (searchResult : SearchResult)
    (annotations : list Annotation) : Prop :=
  INPUT env Inputs.Path <> EmptyString
  /\ trim (INPUT env Inputs.Mode) = mode
  /\ findResults env (trim (INPUT env Inputs.Path)) = Ok searchResult
  /\ filesToUpload searchResult <> []
  /\ exists parsed,
      parse_all env (filesToUpload searchResult) = Ok parsed
      /\ annotations = concat parsed.

(** The events of the inline emitter for one annotation. *)
Definition inline_events (a : Annotation) : list Event :=
  core_info ("[Checkstyle " +:+ AnnotationLevel.value (annotation_level a) +:+ "] "
               +:+ path a +:+ ":" +:+ pretty (start_line a) +:+ " " +:+ message a)
  :: match annotation_level a with
     | AnnotationLevel.failure =>
         [command_issueCommand "error"
            (mkProps (path a) (start_line a) (start_column a)) (message a)]
     | _ => []
     end.

(** An action extends the trace by [evs] and completes with [res] without
    going on after a collaborator fails: no call in [evs] threw, or the last
    one did and [res] is its error. *)
Definition stops_at_failure {A} (evs : list Event) (res : Result A) : Prop :=
  Forall (fun ev => failed_call ev = None) evs
  \/ exists before ev e,
      evs = before ++ [ev]
      /\ Forall (fun ev => failed_call ev = None) before
      /\ failed_call ev = Some e
      /\ res = Throw e.

Definition fail_fast {R A} (m : Action R A) : Prop :=
  forall w res w',
    m w = (res, w') ->
    exists evs,
      trace w' = trace w ++ evs
      /\ exitCode w' = exitCode w
      /\ stops_at_failure evs res.

(** The token the client is built with. *)
Definition client_token (env : Env) : string := trim (INPUT env Inputs.Token).

(** The first line [createCheck] logs. *)
Definition uploading (name : string) (annotations : list Annotation) (numErrors : nat)
    (conclusion : Conclusion.t) : Event :=
  core_info ("Uploading " +:+ pretty (length annotations) +:+ " / "
               +:+ pretty numErrors +:+ " annotations to GitHub as " +:+ name
               +:+ " with conclusion " +:+ Conclusion.value conclusion).

(** The lookup [createCheck] makes: the check runs of the resolved commit. *)
Definition listing (env : Env) : ListForRefRequest :=
  mkListForRef (context_repo (context env)) (resolved_sha env).

(** The [j]-th window of [limit] consecutive elements of a list. *)
Definition window {A} (limit : nat) (l : list A) (j : nat) : list A :=
  take limit (drop (j * limit) l).

(** The number of batches for [n] annotations: one for none, otherwise [n]
    divided by the limit, rounded up. *)
Definition bucket_count (limit n : nat) : nat := Nat.max 1 ((n + limit - 1) / limit).

(** The worse of two conclusions: failure, then neutral, then success. *)
Definition worst_conclusion (a b : Conclusion.t) : Conclusion.t :=
  match a, b with
  | Conclusion.failure, _ | _, Conclusion.failure => Conclusion.failure
  | Conclusion.neutral, _ | _, Conclusion.neutral => Conclusion.neutral
  | Conclusion.success, Conclusion.success => Conclusion.success
  end.

(** An action extends the trace by events that all satisfy [P], leaves the
    remote service as it was when [frozen] is set, and completes normally
    only with a value that satisfies [Q]. *)
Definition emits_only {R A} (P : Event -> Prop) (frozen : bool) (Q : A -> Prop)
    (m : Action R A) : Prop :=
  forall w res w',
    m w = (res, w') ->
    (exists evs, trace w' = trace w ++ evs /\ Forall P evs)
    /\ (frozen = true -> remote w' = remote w)
    /\ (forall a, res = Ok a -> Q a).

(** A remote request concerns the repository of the context and the commit
    reported against; a create carries the given name; every write has
    status [completed]. *)
Definition on_target (env : Env) (name : string) (ev : Event) : Prop :=
  let commit :=
    match payload_pull_request (context env) with
    | Some pull_request => head_sha pull_request
    | None => sha (context env)
    end in
  match ev with
  | call_listForRef req _ =>
      list_repo req = context_repo (context env) /\ ref req = commit
  | call_create req _ =>
      create_repo req = context_repo (context env)
      /\ create_head_sha req = commit
      /\ create_name req = name
      /\ create_status req = completed
  | call_update req _ =>
      update_repo req = context_repo (context env) /\ update_status req = completed
  | _ => True
  end.

(** A call to the search or to the parser. *)
Definition is_local_call (ev : Event) : bool :=
  match ev with
  | call_findResults _ _ | call_annotationsForPath _ _ => true
  | _ => false
  end.

(** A create or update call. *)
Definition is_write_call (ev : Event) : bool :=
  match ev with
  | call_create _ _ | call_update _ _ => true
  | _ => false
  end.

(** ** Sample data for the examples *)

Definition sample_annotation (level : AnnotationLevel.t) (n : Z) : Annotation :=
  mkAnnotation "src/Main.java" n n (Some 1%Z) None level "unused import" None.

(** An environment with the given path and mode inputs, the check name
    [Lint], a push context, a search that finds [files] and a parser. *)
Definition sample_env (path mode : string) (files : list string)
    (parser : string -> Result (list Annotation)) : Env :=
  mkEnv (fun i =>
           match i with
           | Inputs.Path => path
           | Inputs.Mode => mode
           | Inputs.Name => "Lint"
           | Inputs.Title => "Checkstyle"
           | Inputs.Token => "secret"
           end)
        (mkContext "c0ffee" None (mkRepo "wborn" "checkstyle-github-action"))
        (fun _ => Ok (mkSearchResult files "/work"))
        parser.

(** The annotations of the inline example of the spec. *)
Definition example_annotations : list Annotation :=
  [ mkAnnotation "a.java" 10 10 None None AnnotationLevel.failure "unused import" None;
    mkAnnotation "b.java" 4 4 None None AnnotationLevel.warning "magic number" None ].

(** Sixty notices: two batches, of fifty and of ten. *)
Definition sixty_notices : list Annotation :=
  map (fun n => sample_annotation AnnotationLevel.notice (Z.of_nat n)) (seq 1 60).

(** The client built from the token of the sample environments. *)
Definition example_client : @Client Service Service_octokit := "secret".

Definition example_search : SearchResult := mkSearchResult ["build/checkstyle.xml"] "/work".

Definition example_env (mode : string) (annotations : list Annotation) : Env :=
  sample_env "build" mode ["build/checkstyle.xml"] (fun _ => Ok annotations).

(** An environment like [example_env] whose search finds three files, the
    second of which cannot be parsed. *)
Definition parse_error : JsError := mkError "Unexpected end of input".

Definition broken_file_env (mode : string) : Env :=
  sample_env "build" mode ["a.xml"; "b.xml"; "c.xml"]
    (fun f => if String.eqb f "b.xml" then Throw parse_error else Ok example_annotations).

(** An environment whose search throws. *)
Definition search_error : JsError := mkError "EACCES: permission denied".

Definition broken_search_env (mode : string) : Env :=
  mkEnv (INPUT (example_env mode [])) (context (example_env mode []))
    (fun _ => Throw search_error) (fun _ => Ok []).

(** An environment without a token: the test double builds no client. *)
Definition no_token_env (annotations : list Annotation) : Env :=
  mkEnv (fun i => match i with
                  | Inputs.Token => EmptyString
                  | _ => INPUT (example_env "separate" annotations) i
                  end)
    (context (example_env "separate" annotations))
    (findResults (example_env "separate" annotations))
    (annotationsForPath (example_env "separate" annotations)).

(** * Properties *)

(** ** Batcher *)

Section Batcher.
Context {A : Type}.
Implicit Types (l : list A) (result : list (list A)).

Lemma slice_window m idx l : slice idx (idx + S m) l = take (S m) (drop idx l).
Proof. unfold slice. f_equal. lia. Qed.

Lemma splitEvery_loop_done m l idx result :
  length l <= idx -> splitEvery_loop m l idx result = result.
Proof.
  intros Hge. rewrite (splitEvery_loop_equation_1 A m l idx result).
  destruct (lt_dec idx (length l)); [lia | reflexivity].
Qed.

Lemma splitEvery_loop_step m l idx result :
  idx < length l ->
  splitEvery_loop m l idx result
  = splitEvery_loop m l (idx + S m) (result ++ [take (S m) (drop idx l)]).
Proof.
  intros Hlt. rewrite <- slice_window.
  rewrite (splitEvery_loop_equation_1 A m l idx result).
  destruct (lt_dec idx (length l)); [reflexivity | lia].
Qed.

(** The loop appends to [result] windows that together are the rest of
    the list from [idx] on. *)
Lemma splitEvery_loop_concat m l idx result :
  concat (splitEvery_loop m l idx result) = concat result ++ drop idx l.
Proof.
  remember (length l - idx) as k eqn:Hk.
  revert idx result Hk.
  induction (lt_wf k) as [k _ IH]. intros idx result ->.
  destruct (lt_dec idx (length l)) as [Hlt | Hge].
  - rewrite splitEvery_loop_step by assumption.
    rewrite (IH (length l - (idx + S m))) by (lia || reflexivity).
    rewrite concat_app. simpl. rewrite app_nil_r, <- app_assoc. f_equal.
    rewrite <- drop_drop. apply take_drop.
  - rewrite splitEvery_loop_done by lia.
    rewrite drop_ge by lia. now rewrite app_nil_r.
Qed.

(** Started inside the list, the loop ends with a non-empty window of at
    most [S m] elements; every window before it is full. *)
Lemma splitEvery_loop_shape m l idx result :
  idx < length l ->
  Forall (fun b => length b = S m) result ->
  exists pre lst,
    splitEvery_loop m l idx result = pre ++ [lst]
    /\ Forall (fun b => length b = S m) pre
    /\ 0 < length lst <= S m.
Proof.
  remember (length l - idx) as k eqn:Hk.
  revert idx result Hk.
  induction (lt_wf k) as [k _ IH]. intros idx result -> Hlt Hfull.
  rewrite splitEvery_loop_step by assumption.
  destruct (lt_dec (idx + S m) (length l)) as [Hmore | Hlast].
  - apply (IH (length l - (idx + S m))); [lia | reflexivity | assumption |].
    apply Forall_app. split; [assumption |].
    constructor; [| constructor].
    rewrite length_take, length_drop. lia.
  - rewrite splitEvery_loop_done by lia.
    exists result, (take (S m) (drop idx l)).
    split; [reflexivity |]. split; [assumption |].
    rewrite length_take, length_drop. lia.
Qed.
End Batcher.

(** C1: for every annotation sequence and positive limit, the Batcher
    returns batches [pre ++ [lst]] whose concatenation is the input in
    order; every batch but the last ([pre]) has exactly [limit] elements,
    the last has at most [limit]; an input of at most [limit] elements is
    returned as the single batch holding all of it. *)
Theorem groupAnnotations_batches (annotations : list Annotation) (limit : nat) :
  0 < limit ->
  exists pre lst,
    groupAnnotations limit annotations = Ok (pre ++ [lst])
    /\ concat (pre ++ [lst]) = annotations
    /\ Forall (fun b => length b = limit) pre
    /\ length lst <= limit
    /\ (length annotations <= limit -> pre = [] /\ lst = annotations).
Proof.
  intros Hpos. unfold groupAnnotations.
  destruct (Nat.ltb_spec limit (length annotations)) as [Hlong | Hshort].
  - destruct limit as [| m]; [lia |]. simpl.
    destruct (splitEvery_loop_shape m annotations 0 [] ltac:(lia) ltac:(constructor))
      as (pre & lst & Heq & Hfull & Hlst).
    exists pre, lst. rewrite <- Heq.
    split; [reflexivity |].
    split; [now rewrite splitEvery_loop_concat |].
    split; [assumption |]. split; [lia |]. lia.
  - exists [], annotations. simpl. rewrite app_nil_r.
    repeat split; auto.
Qed.

Lemma groupAnnotations_batches_witness :
  let annotations := map (sample_annotation AnnotationLevel.warning) [1; 2; 3; 4; 5]%Z in
  exists pre lst,
    groupAnnotations 2 annotations = Ok (pre ++ [lst])
    /\ concat (pre ++ [lst]) = annotations
    /\ Forall (fun b => length b = 2) pre
    /\ length lst <= 2
    /\ (length annotations <= 2 -> pre = [] /\ lst = annotations).
Proof. intros annotations. apply (groupAnnotations_batches annotations 2). lia. Defined.

Example groupAnnotations_five_by_two :
  groupAnnotations 2 (map (sample_annotation AnnotationLevel.warning) [1; 2; 3; 4; 5]%Z)
  = Ok (map (map (sample_annotation AnnotationLevel.warning)) [[1; 2]; [3; 4]; [5]]%Z).
Proof. vm_compute. reflexivity. Qed.

(** ** Verdict Calculator *)

Lemma AnnotationLevel_eqb_spec a b : reflect (a = b) (AnnotationLevel.eqb a b).
Proof. destruct a, b; constructor; congruence. Qed.

Lemma AnnotationLevel_value_inj a b :
  AnnotationLevel.value a = AnnotationLevel.value b -> a = b.
Proof. destruct a, b; simpl; congruence. Qed.

Lemma has_level_Exists level annotations :
  has_level level annotations = true
  <-> Exists (fun a => annotation_level a = level) annotations.
Proof.
  unfold has_level. induction annotations as [| a rest IH]; simpl.
  - split; [discriminate | intros H; inversion H].
  - rewrite orb_true_iff, IH, Exists_cons.
    destruct (AnnotationLevel_eqb_spec (annotation_level a) level); intuition congruence.
Qed.

Lemma has_level_Permutation level (A B : list Annotation) :
  Permutation A B -> has_level level A = has_level level B.
Proof.
  unfold has_level. induction 1 as [| x l l' _ IH | x y l | l l' l'' _ IH1 _ IH2]; simpl.
  - reflexivity.
  - now rewrite IH.
  - now rewrite !orb_assoc, (orb_comm (AnnotationLevel.eqb _ _)).
  - now rewrite IH1.
Qed.

Lemma has_level_app level (A B : list Annotation) :
  has_level level (A ++ B) = has_level level A || has_level level B.
Proof. apply existsb_app. Qed.

Section GroupBy.
Context {A : Type} (fn : A -> string).

(** A key of the object built by [groupBy] holds a non-empty array exactly
    when it did before or some element of the list has that key. *)
Lemma groupBy_fold_truthy (l : list A) (acc : gmap string (list A)) (k : string) :
  truthy_length
    (foldl (fun acc x => <[fn x := default [] (acc !! fn x) ++ [x]]> acc) acc l !! k)
  = truthy_length (acc !! k) || existsb (fun x => String.eqb (fn x) k) l.
Proof.
  revert acc. induction l as [| x rest IH]; intros acc; simpl.
  - now rewrite orb_false_r.
  - rewrite IH, orb_assoc. f_equal.
    destruct (String.eqb_spec (fn x) k) as [-> | Hne].
    + rewrite lookup_insert_eq. simpl. rewrite length_app. simpl.
      rewrite orb_true_r. destruct (length _ + 1) eqn:E; [lia | reflexivity].
    + rewrite lookup_insert_ne by assumption. now rewrite orb_false_r.
Qed.

Lemma groupBy_truthy (l : list A) (k : string) :
  truthy_length (groupBy fn l !! k) = existsb (fun x => String.eqb (fn x) k) l.
Proof. unfold groupBy. now rewrite groupBy_fold_truthy, lookup_empty. Qed.
End GroupBy.

Lemma groupBy_level_truthy (annotations : list Annotation) (level : AnnotationLevel.t) :
  truthy_length
    (groupBy (fun a => AnnotationLevel.value (annotation_level a)) annotations
       !! AnnotationLevel.value level)
  = has_level level annotations.
Proof.
  rewrite groupBy_truthy. unfold has_level.
  induction annotations as [| a rest IH]; simpl; [reflexivity |].
  rewrite IH. f_equal.
  destruct (AnnotationLevel_eqb_spec (annotation_level a) level) as [-> | Hne].
  - apply String.eqb_refl.
  - apply String.eqb_neq. intros Heq. apply Hne, AnnotationLevel_value_inj, Heq.
Qed.

(** [getConclusion] as a precedence test on the levels present. *)
Lemma getConclusion_precedence (annotations : list Annotation) :
  getConclusion annotations
  = if has_level AnnotationLevel.failure annotations then Conclusion.failure
    else if has_level AnnotationLevel.warning annotations then Conclusion.neutral
    else Conclusion.success.
Proof.
  unfold getConclusion. rewrite !groupBy_level_truthy.
  destruct annotations; reflexivity.
Qed.

(** C2: [getConclusion] returns success on the empty list, failure when
    some annotation has level failure, otherwise neutral when some
    annotation has level warning, otherwise success; removing a notice-level
    annotation does not change the result, nor does permuting the list. *)
Theorem getConclusion_verdict (annotations : list Annotation) :
  (annotations = [] -> getConclusion annotations = Conclusion.success)
  /\ (Exists (fun a => annotation_level a = AnnotationLevel.failure) annotations ->
      getConclusion annotations = Conclusion.failure)
  /\ (~ Exists (fun a => annotation_level a = AnnotationLevel.failure) annotations ->
      Exists (fun a => annotation_level a = AnnotationLevel.warning) annotations ->
      getConclusion annotations = Conclusion.neutral)
  /\ (~ Exists (fun a => annotation_level a = AnnotationLevel.failure) annotations ->
      ~ Exists (fun a => annotation_level a = AnnotationLevel.warning) annotations ->
      getConclusion annotations = Conclusion.success)
  /\ (forall before a after,
        annotations = before ++ a :: after ->
        annotation_level a = AnnotationLevel.notice ->
        getConclusion (before ++ after) = getConclusion annotations)
  /\ (forall permuted,
        Permutation annotations permuted ->
        getConclusion permuted = getConclusion annotations).
Proof.
  repeat split.
  - intros ->. reflexivity.
  - intros Hf. rewrite getConclusion_precedence.
    apply has_level_Exists in Hf. now rewrite Hf.
  - intros Hnf Hw. rewrite getConclusion_precedence.
    apply has_level_Exists in Hw. rewrite Hw.
    destruct (has_level AnnotationLevel.failure annotations) eqn:E; [| reflexivity].
    apply has_level_Exists in E. contradiction.
  - intros Hnf Hnw. rewrite getConclusion_precedence.
    destruct (has_level AnnotationLevel.failure annotations) eqn:Ef.
    { apply has_level_Exists in Ef. contradiction. }
    destruct (has_level AnnotationLevel.warning annotations) eqn:Ew; [| reflexivity].
    apply has_level_Exists in Ew. contradiction.
  - intros before a after -> Hnotice.
    rewrite !getConclusion_precedence, !has_level_app.
    unfold has_level at 4 8. simpl. rewrite Hnotice. reflexivity.
  - intros permuted Hperm. rewrite !getConclusion_precedence.
    now rewrite <- !(has_level_Permutation _ _ _ Hperm).
Qed.

Lemma getConclusion_verdict_witness :
  Exists (fun a => annotation_level a = AnnotationLevel.failure) example_annotations
  /\ getConclusion example_annotations = Conclusion.failure
  /\ getConclusion (rev example_annotations) = getConclusion example_annotations.
Proof.
  assert (Hfailure : Exists (fun a => annotation_level a = AnnotationLevel.failure)
                       example_annotations) by (left; reflexivity).
  destruct (getConclusion_verdict example_annotations) as (_ & Hf & _ & _ & _ & Hperm).
  split; [exact Hfailure |]. split; [exact (Hf Hfailure) |].
  apply Hperm. apply Permutation_rev.
Defined.

Example getConclusion_spec_examples :
  getConclusion [] = Conclusion.success
  /\ getConclusion [sample_annotation AnnotationLevel.failure 1] = Conclusion.failure
  /\ getConclusion [sample_annotation AnnotationLevel.warning 1] = Conclusion.neutral
  /\ getConclusion [sample_annotation AnnotationLevel.warning 1;
                    sample_annotation AnnotationLevel.failure 2] = Conclusion.failure
  /\ getConclusion [sample_annotation AnnotationLevel.notice 1] = Conclusion.success.
Proof. vm_compute. repeat split. Qed.

(** ** Actions *)

Section Actions.
Context {R : Type}.

Lemma bind_emit {B} ev (k : unit -> Action R B) w :
  bind (emit ev) k w = k tt (mkWorld (trace w ++ [ev]) (remote w) (exitCode w)).
Proof. reflexivity. Qed.

Lemma bind_lift_ok {A B} (a : A) (k : A -> Action R B) w :
  bind (lift (Ok a)) k w = k a w.
Proof. reflexivity. Qed.

Lemma await_findResults_run env p (w : World R) :
  await_findResults env p w
  = (findResults env p,
     mkWorld (trace w ++ [call_findResults p (findResults env p)])
       (remote w) (exitCode w)).
Proof. reflexivity. Qed.

Lemma core_getInput_optional env i (w : World R) :
  core_getInput env i false w = (Ok (trim (INPUT env i)), w).
Proof. reflexivity. Qed.

Lemma core_getInput_supplied env i required (w : World R) :
  INPUT env i <> EmptyString ->
  core_getInput env i required w = (Ok (trim (INPUT env i)), w).
Proof.
  intros Hne. unfold core_getInput.
  apply String.eqb_neq in Hne. rewrite Hne, andb_false_r. reflexivity.
Qed.

Lemma core_getInput_missing env i (w : World R) :
  INPUT env i = EmptyString ->
  core_getInput env i true w
  = (Throw (mkError ("Input required and not supplied: " +:+ Inputs.value i)), w).
Proof. intros Hempty. unfold core_getInput. rewrite Hempty. reflexivity. Qed.

(** [chain(annotationsForPath, files)] calls the parser on the files in
    order and stops at the first that throws. *)
Lemma map_list_call_annotations env files (w : World R) :
  map_list (call_annotations env) files w
  = (parse_all env files,
     mkWorld (trace w ++ parse_events env files) (remote w) (exitCode w)).
Proof.
  revert w. induction files as [| f rest IH]; intros w; simpl.
  - unfold ret. rewrite app_nil_r. now destruct w.
  - unfold bind at 1. unfold call_annotations at 1.
    unfold bind at 1, emit, lift. simpl.
    destruct (annotationsForPath env f) as [anns | e]; [| reflexivity].
    unfold bind at 1. rewrite IH. simpl. rewrite <- app_assoc. simpl.
    destruct (parse_all env rest); reflexivity.
Qed.

Lemma chain_call_annotations env files (w : World R) :
  chain (call_annotations env) files w
  = (match parse_all env files with
     | Ok parsed => Ok (concat parsed)
     | Throw e => Throw e
     end,
     mkWorld (trace w ++ parse_events env files) (remote w) (exitCode w)).
Proof.
  unfold chain, bind. rewrite map_list_call_annotations.
  destruct (parse_all env files); reflexivity.
Qed.
End Actions.

(** ** Check Reporter *)

Section CheckReporter.
Context {R : Type} `{Octokit R}.
Variable env : Env.
Variables (name title : string) (annotations : list Annotation).
Variables (numErrors : nat) (conclusion : Conclusion.t).

(** No client: nothing is listed or written. *)
Lemma createCheck_client_throws (w : World R) e :
  getOctokit (client_token env) = Throw e ->
  createCheck env name title annotations numErrors conclusion w
  = (Throw e,
     mkWorld (trace w ++ [uploading name annotations numErrors conclusion])
       (remote w) (exitCode w)).
Proof.
  intros Hclient. unfold createCheck. rewrite bind_emit.
  unfold bind at 1. rewrite core_getInput_optional.
  fold (client_token env). rewrite Hclient. reflexivity.
Qed.

(** What [createCheck] does once it has a client. *)
Lemma createCheck_with_client (w : World R) octokit :
  getOctokit (client_token env) = Ok octokit ->
  createCheck env name title annotations numErrors conclusion w
  = bind (await_listForRef octokit (listing env))
      (fun check_runs =>
         match List.find (fun check => String.eqb (CheckRun.name check) name) check_runs with
         | None =>
             await_create octokit
               (mkCreate (context_repo (context env)) (resolved_sha env) conclusion name
                  completed (mkOutput title (violations_found numErrors) annotations))
         | Some existing =>
             await_update octokit
               (mkUpdate (context_repo (context env)) conclusion (CheckRun.id existing)
                  completed (mkOutput title (violations_found numErrors) annotations))
         end)
      (mkWorld (trace w ++ [uploading name annotations numErrors conclusion])
         (remote w) (exitCode w)).
Proof.
  intros Hclient. unfold createCheck. rewrite bind_emit.
  unfold bind at 1. rewrite core_getInput_optional.
  fold (client_token env). rewrite Hclient, bind_lift_ok. reflexivity.
Qed.

(** The lookup fails: nothing is written. *)
Lemma createCheck_list_throws (w : World R) octokit e s :
  getOctokit (client_token env) = Ok octokit ->
  checks_listForRef octokit (listing env) (remote w) = (Throw e, s) ->
  createCheck env name title annotations numErrors conclusion w
  = (Throw e,
     mkWorld (trace w ++ [uploading name annotations numErrors conclusion;
                          call_listForRef (listing env) (Throw e)])
       s (exitCode w)).
Proof.
  intros Hclient Hlist. rewrite (createCheck_with_client w octokit Hclient).
  unfold bind, await_listForRef, octokit_call. simpl. rewrite Hlist.
  rewrite <- !app_assoc. reflexivity.
Qed.

(** No report of that name: one create request. *)
Lemma createCheck_creates (w : World R) octokit check_runs s :
  getOctokit (client_token env) = Ok octokit ->
  checks_listForRef octokit (listing env) (remote w) = (Ok check_runs, s) ->
  List.find (fun check => String.eqb (CheckRun.name check) name) check_runs = None ->
  let createRequest :=
    mkCreate (context_repo (context env)) (resolved_sha env) conclusion name
      completed (mkOutput title (violations_found numErrors) annotations) in
  let answer := checks_create octokit createRequest s in
  createCheck env name title annotations numErrors conclusion w
  = (fst answer,
     mkWorld (trace w ++ [uploading name annotations numErrors conclusion;
                          call_listForRef (listing env) (Ok check_runs);
                          call_create createRequest (fst answer)])
       (snd answer) (exitCode w)).
Proof.
  intros Hclient Hlist Hfind. rewrite (createCheck_with_client w octokit Hclient).
  unfold bind, await_listForRef, octokit_call. simpl. rewrite Hlist, Hfind.
  unfold await_create, octokit_call. simpl.
  destruct (checks_create _ _ s) as [r s']. simpl.
  rewrite <- !app_assoc. reflexivity.
Qed.

(** A report of that name: one update request, to the report found. *)
Lemma createCheck_updates (w : World R) octokit check_runs s existing :
  getOctokit (client_token env) = Ok octokit ->
  checks_listForRef octokit (listing env) (remote w) = (Ok check_runs, s) ->
  List.find (fun check => String.eqb (CheckRun.name check) name) check_runs
    = Some existing ->
  let update_req :=
    mkUpdate (context_repo (context env)) conclusion (CheckRun.id existing)
      completed (mkOutput title (violations_found numErrors) annotations) in
  let answer := checks_update octokit update_req s in
  createCheck env name title annotations numErrors conclusion w
  = (fst answer,
     mkWorld (trace w ++ [uploading name annotations numErrors conclusion;
                          call_listForRef (listing env) (Ok check_runs);
                          call_update update_req (fst answer)])
       (snd answer) (exitCode w)).
Proof.
  intros Hclient Hlist Hfind. rewrite (createCheck_with_client w octokit Hclient).
  unfold bind, await_listForRef, octokit_call. simpl. rewrite Hlist, Hfind.
  unfold await_update, octokit_call. simpl.
  destruct (checks_update _ _ s) as [r s']. simpl.
  rewrite <- !app_assoc. reflexivity.
Qed.
End CheckReporter.

(** [find] returns no element exactly when no listed run has the name. *)
Lemma find_name_None (name : string) (check_runs : list CheckRun.t) :
  List.find (fun check => String.eqb (CheckRun.name check) name) check_runs = None
  <-> Forall (fun check => CheckRun.name check <> name) check_runs.
Proof.
  induction check_runs as [| c rest IH]; simpl.
  - split; [constructor | reflexivity].
  - rewrite Forall_cons. destruct (String.eqb_spec (CheckRun.name c) name).
    + split; [discriminate | intros [Hne _]; contradiction].
    + rewrite IH. tauto.
Qed.

(** [find] returns the first listed run that has the name. *)
Lemma find_name_first (name : string) (before after : list CheckRun.t) first :
  Forall (fun check => CheckRun.name check <> name) before ->
  CheckRun.name first = name ->
  List.find (fun check => String.eqb (CheckRun.name check) name) (before ++ first :: after)
  = Some first.
Proof.
  intros Hbefore Hname. induction Hbefore as [| c rest Hc _ IH]; simpl.
  - apply String.eqb_eq in Hname. now rewrite Hname.
  - apply String.eqb_neq in Hc. now rewrite Hc.
Qed.

Lemma find_name_Some (name : string) (check_runs : list CheckRun.t) existing :
  List.find (fun check => String.eqb (CheckRun.name check) name) check_runs = Some existing ->
  exists before after,
    check_runs = before ++ existing :: after
    /\ Forall (fun check => CheckRun.name check <> name) before
    /\ CheckRun.name existing = name.
Proof.
  induction check_runs as [| c rest IH]; simpl; [discriminate |].
  destruct (String.eqb_spec (CheckRun.name c) name) as [Heq | Hne].
  - intros [= <-]. exists [], rest. repeat split; [constructor | assumption].
  - intros Hfind. destruct (IH Hfind) as (before & after & -> & Hbefore & Hname).
    exists (c :: before), after. repeat split; [constructor |]; assumption.
Qed.

(** C3: a call of the Check Reporter that gets a client and whose lookup
    answers [check_runs] logs one line, lists the check runs of the resolved
    commit, and makes exactly one write.  When no listed run has the
    configured name, the write is a create request with that name,
    [head_sha] the resolved commit, the given conclusion and status
    [completed].  When some listed run has the name, the write is an update
    request whose [check_run_id] is the id of a listed run of that name, with
    the given conclusion and output and status [completed]. *)
Theorem createCheck_upsert {R : Type} `{Octokit R} (env : Env) (name title : string)
    (annotations : list Annotation) (numErrors : nat) (conclusion : Conclusion.t)
    (w : World R) (octokit : Client) (check_runs : list CheckRun.t) (s : R) :
  let lookup := mkListForRef (context_repo (context env)) (resolved_sha env) in
  let output := mkOutput title (pretty numErrors +:+ " violation(s) found") annotations in
  getOctokit (trim (INPUT env Inputs.Token)) = Ok octokit ->
  checks_listForRef octokit lookup (remote w) = (Ok check_runs, s) ->
  (Forall (fun check => CheckRun.name check <> name) check_runs ->
   let request :=
     mkCreate (context_repo (context env)) (resolved_sha env) conclusion name
       completed output in
   let answer := checks_create octokit request s in
   createCheck env name title annotations numErrors conclusion w
   = (fst answer,
      mkWorld (trace w ++ [uploading name annotations numErrors conclusion;
                           call_listForRef lookup (Ok check_runs);
                           call_create request (fst answer)])
        (snd answer) (exitCode w)))
  /\ (Exists (fun check => CheckRun.name check = name) check_runs ->
      exists existing,
        In existing check_runs
        /\ CheckRun.name existing = name
        /\ let request :=
             mkUpdate (context_repo (context env)) conclusion (CheckRun.id existing)
               completed output in
           let answer := checks_update octokit request s in
           createCheck env name title annotations numErrors conclusion w
           = (fst answer,
              mkWorld (trace w ++ [uploading name annotations numErrors conclusion;
                                   call_listForRef lookup (Ok check_runs);
                                   call_update request (fst answer)])
                (snd answer) (exitCode w))).
Proof.
  intros lookup output Hclient Hlist. split.
  - intros Hnone. apply find_name_None in Hnone.
    exact (createCheck_creates env name title annotations numErrors conclusion
             w octokit check_runs s Hclient Hlist Hnone).
  - intros Hsome.
    destruct (List.find (fun check => String.eqb (CheckRun.name check) name) check_runs)
      as [existing |] eqn:Hfind.
    + destruct (find_name_Some _ _ _ Hfind) as (before & after & Hruns & _ & Hname).
      exists existing. split; [rewrite Hruns; apply in_elt |].
      split; [assumption |].
      exact (createCheck_updates env name title annotations numErrors conclusion
               w octokit check_runs s existing Hclient Hlist Hfind).
    + apply find_name_None in Hfind. apply Exists_exists in Hsome.
      destruct Hsome as (c & Hin & Hc). rewrite Forall_forall in Hfind.
      exfalso. apply (Hfind c); assumption.
Qed.

Lemma createCheck_upsert_witness :
  let env := example_env "separate" example_annotations in
  let r := mkService [CheckRun.mk 7 "Lint"] 8 3 in
  getOctokit (trim (INPUT env Inputs.Token)) = Ok example_client
  /\ checks_listForRef example_client
       (mkListForRef (context_repo (context env)) (resolved_sha env)) (remote (init_world r))
     = (Ok [CheckRun.mk 7 "Lint"], r)
  /\ Exists (fun check => CheckRun.name check = "Lint") [CheckRun.mk 7 "Lint"]
  /\ exists existing,
       In existing [CheckRun.mk 7 "Lint"]
       /\ write_requests
            (trace (snd (createCheck env "Lint" "Checkstyle" example_annotations 2
                           Conclusion.failure (init_world r))))
          = [mkWrite (Some (CheckRun.id existing)) Conclusion.failure completed
               (mkOutput "Checkstyle" "2 violation(s) found" example_annotations)].
Proof.
  intros env r.
  assert (Hsome : Exists (fun check => CheckRun.name check = "Lint") [CheckRun.mk 7 "Lint"])
    by (left; reflexivity).
  assert (Hclient : getOctokit (trim (INPUT env Inputs.Token)) = Ok example_client) by reflexivity.
  assert (Hlist : checks_listForRef example_client
                    (mkListForRef (context_repo (context env)) (resolved_sha env))
                    (remote (init_world r))
                  = (Ok [CheckRun.mk 7 "Lint"], r)) by reflexivity.
  split; [exact Hclient |]. split; [exact Hlist |]. split; [exact Hsome |].
  destruct (createCheck_upsert env "Lint" "Checkstyle" example_annotations 2
              Conclusion.failure (init_world r) example_client [CheckRun.mk 7 "Lint"] r
              Hclient Hlist)
    as [_ Hupdate].
  destruct (Hupdate Hsome) as (existing & Hin & _ & Heq).
  exists existing. split; [exact Hin |].
  cbv zeta in Heq. rewrite Heq. reflexivity.
Defined.

(** C10: when several listed runs have the configured name, the Check
    Reporter updates the first of them in the listed order, and the only
    write it makes is that update: no run is created. *)
Theorem createCheck_updates_first_match {R : Type} `{Octokit R} (env : Env)
    (name title : string) (annotations : list Annotation) (numErrors : nat)
    (conclusion : Conclusion.t) (w : World R) (octokit : Client)
    (before after : list CheckRun.t) (first : CheckRun.t) (s : R) :
  let lookup := mkListForRef (context_repo (context env)) (resolved_sha env) in
  let check_runs := before ++ first :: after in
  getOctokit (trim (INPUT env Inputs.Token)) = Ok octokit ->
  checks_listForRef octokit lookup (remote w) = (Ok check_runs, s) ->
  Forall (fun check => CheckRun.name check <> name) before ->
  CheckRun.name first = name ->
  Exists (fun check => CheckRun.name check = name) after ->
  let request :=
    mkUpdate (context_repo (context env)) conclusion (CheckRun.id first) completed
      (mkOutput title (pretty numErrors +:+ " violation(s) found") annotations) in
  let answer := checks_update octokit request s in
  createCheck env name title annotations numErrors conclusion w
  = (fst answer,
     mkWorld (trace w ++ [uploading name annotations numErrors conclusion;
                          call_listForRef lookup (Ok check_runs);
                          call_update request (fst answer)])
       (snd answer) (exitCode w)).
Proof.
  intros lookup check_runs Hclient Hlist Hbefore Hname _.
  exact (createCheck_updates env name title annotations numErrors conclusion
           w octokit check_runs s first Hclient Hlist
           (find_name_first name before after first Hbefore Hname)).
Qed.

Lemma createCheck_updates_first_match_witness :
  let env := example_env "separate" example_annotations in
  let listed := [CheckRun.mk 3 "Build"; CheckRun.mk 7 "Lint"; CheckRun.mk 9 "Lint"] in
  let r := mkService listed 10 3 in
  write_requests
    (trace (snd (createCheck env "Lint" "Checkstyle" example_annotations 2
                   Conclusion.failure (init_world r))))
  = [mkWrite (Some 7%Z) Conclusion.failure completed
       (mkOutput "Checkstyle" "2 violation(s) found" example_annotations)].
Proof.
  intros env listed r.
  rewrite (createCheck_updates_first_match env "Lint" "Checkstyle" example_annotations 2
             Conclusion.failure (init_world r) example_client
             [CheckRun.mk 3 "Build"] [CheckRun.mk 9 "Lint"] (CheckRun.mk 7 "Lint") r).
  - reflexivity.
  - reflexivity.
  - reflexivity.
  - repeat constructor. discriminate.
  - reflexivity.
  - left. reflexivity.
Defined.

(** ** Pipeline Controller *)

Section Pipeline.
Context {R : Type} `{Octokit R}.
Variable env : Env.

(** The dispatch on the mode, for a run that gets that far. *)
Lemma run_dispatch (w : World R) mode searchResult annotations groupedAnnotations :
  reaches_dispatch env mode searchResult annotations ->
  mode = "inline" \/ mode = "separate" ->
  groupAnnotations MAX_ANNOTATIONS_PER_REQUEST annotations = Ok groupedAnnotations ->
  run env w
  = try_catch
      (if String.eqb mode "separate"
       then for_of groupedAnnotations (fun annotationSet =>
              createCheck env (trim (INPUT env Inputs.Name)) (trim (INPUT env Inputs.Title))
                annotationSet (length annotations) (getConclusion annotations))
       else for_of annotations emit_inline)
      core_setFailed
      (mkWorld (trace w ++ preamble env searchResult annotations (length groupedAnnotations))
         (remote w) (exitCode w)).
Proof.
  intros (Hpath & Hmode & Hsearch & Hfiles & parsed & Hparse & Hanns) Hvalid Hgroup.
  unfold run, try_catch.
  match goal with
  | |- match ?x with _ => _ end = match ?y with _ => _ end =>
      replace x with y; [reflexivity |]
  end.
  symmetry.
  unfold bind at 1. rewrite core_getInput_supplied by assumption.
  unfold bind at 1. rewrite core_getInput_optional, Hmode.
  unfold bind at 1. rewrite core_getInput_optional.
  unfold bind at 1. rewrite core_getInput_optional.
  replace (negb (String.eqb mode "inline") && negb (String.eqb mode "separate"))
    with false by (destruct Hvalid as [Hv | Hv]; rewrite Hv; reflexivity).
  unfold bind at 1. rewrite await_findResults_run, Hsearch.
  destruct (Nat.eqb_spec (length (filesToUpload searchResult)) 0) as [Hlen | _].
  { destruct (filesToUpload searchResult); [congruence | discriminate]. }
  rewrite !bind_emit. cbn [trace remote exitCode].
  unfold bind at 1. rewrite chain_call_annotations, Hparse, <- Hanns.
  rewrite bind_emit, Hgroup, bind_lift_ok, bind_emit. cbn [trace remote exitCode].
  unfold preamble. rewrite <- !app_assoc. cbn [app].
  destruct Hvalid as [Hv | Hv]; rewrite Hv; reflexivity.
Qed.
End Pipeline.

(** The parser calls are neither log lines, nor inline diagnostics, nor
    remote calls. *)
Lemma parse_events_kind (env : Env) (files : list string) :
  Forall (fun ev => is_remote_call ev = false
                    /\ is_inline_diagnostic ev = false
                    /\ is_info_line ev = false
                    /\ write_request ev = None)
    (parse_events env files).
Proof.
  induction files as [| f rest IH]; simpl; [constructor |].
  constructor; [repeat split |].
  destruct (annotationsForPath env f); [assumption | constructor].
Qed.

Lemma filter_none {A} (p : A -> bool) (l : list A) :
  Forall (fun x => p x = false) l -> List.filter p l = [].
Proof.
  induction 1 as [| x rest Hx _ IH]; simpl; [reflexivity |]. now rewrite Hx.
Qed.

Lemma preamble_kind (env : Env) searchResult annotations buckets :
  Forall (fun ev => is_remote_call ev = false) (preamble env searchResult annotations buckets)
  /\ List.filter is_inline_diagnostic (preamble env searchResult annotations buckets) = []
  /\ write_requests (preamble env searchResult annotations buckets) = [].
Proof.
  pose proof (parse_events_kind env (filesToUpload searchResult)) as Hparse.
  unfold preamble, write_requests. split; [| split].
  - repeat (apply Forall_app; split); repeat constructor.
    eapply Forall_impl; [exact Hparse |]. simpl. tauto.
  - rewrite !List.filter_app. simpl. rewrite app_nil_r.
    apply filter_none. eapply Forall_impl; [exact Hparse |]. simpl. tauto.
  - rewrite !omap_app. simpl. rewrite app_nil_r.
    induction Hparse as [| ev rest (_ & _ & _ & Hev) _ IH]; simpl; [reflexivity |].
    now rewrite Hev.
Qed.

(** ** Inline Emitter *)

Lemma emit_inline_run {R} (a : Annotation) (w : World R) :
  emit_inline a w
  = (Ok tt, mkWorld (trace w ++ inline_events a) (remote w) (exitCode w)).
Proof.
  unfold emit_inline, inline_events, inline_log_line. rewrite bind_emit.
  destruct (annotation_level a); simpl; unfold ret, emit; simpl;
    rewrite <- ?app_assoc; reflexivity.
Qed.

Lemma for_of_emit_inline {R} (annotations : list Annotation) (w : World R) :
  for_of annotations emit_inline w
  = (Ok tt,
     mkWorld (trace w ++ flat_map inline_events annotations) (remote w) (exitCode w)).
Proof.
  revert w. induction annotations as [| a rest IH]; intros w; simpl.
  - unfold ret. rewrite app_nil_r. now destruct w.
  - unfold bind. rewrite emit_inline_run, IH. simpl. now rewrite <- app_assoc.
Qed.

Lemma inline_events_diagnostics (annotations : list Annotation) :
  List.filter is_inline_diagnostic (flat_map inline_events annotations)
  = map (fun a => command_issueCommand "error"
                    (mkProps (path a) (start_line a) (start_column a)) (message a))
      (List.filter (fun a => AnnotationLevel.eqb (annotation_level a) AnnotationLevel.failure)
         annotations).
Proof.
  induction annotations as [| a rest IH]; simpl; [reflexivity |].
  rewrite List.filter_app, IH. unfold inline_events.
  destruct (annotation_level a); reflexivity.
Qed.

Lemma inline_events_info_lines (annotations : list Annotation) :
  List.filter is_info_line (flat_map inline_events annotations)
  = map (fun a => hd (core_info EmptyString) (inline_events a)) annotations.
Proof.
  induction annotations as [| a rest IH]; simpl; [reflexivity |].
  rewrite List.filter_app, IH. unfold inline_events.
  destruct (annotation_level a); reflexivity.
Qed.

Lemma inline_events_local (annotations : list Annotation) :
  Forall (fun ev => is_remote_call ev = false) (flat_map inline_events annotations).
Proof.
  induction annotations as [| a rest IH]; cbn [flat_map]; [constructor |].
  apply Forall_app. split; [| assumption].
  unfold inline_events. destruct (annotation_level a); repeat constructor.
Qed.

Lemma groupAnnotations_total (annotations : list Annotation) :
  exists groupedAnnotations,
    groupAnnotations MAX_ANNOTATIONS_PER_REQUEST annotations = Ok groupedAnnotations.
Proof.
  unfold groupAnnotations, MAX_ANNOTATIONS_PER_REQUEST.
  destruct (50 <? length annotations); eexists; reflexivity.
Qed.

(** C6: in inline mode, a run that finds and parses files into
    [annotations] appends to the trace, after the preamble, the events of
    each annotation in order: one log line
    [[Checkstyle <level>] <path>:<start_line> <message>], followed, exactly
    when the level is failure, by the command [error] with properties
    [{file: path, line: start_line, col: start_column}] and the message.  The
    inline diagnostics of the run are those of the failure-level
    annotations, there is one such log line per annotation, and the run
    makes no remote call and leaves the remote service as it was. *)
Theorem run_inline {R : Type} `{Octokit R} (env : Env) (w : World R)
    (searchResult : SearchResult) (annotations : list Annotation) :
  reaches_dispatch env "inline" searchResult annotations ->
  exists buckets,
    let events := preamble env searchResult annotations buckets
                  ++ flat_map inline_events annotations in
    run env w = (Ok tt, mkWorld (trace w ++ events) (remote w) (exitCode w))
    /\ List.filter is_info_line (flat_map inline_events annotations)
       = map (fun a =>
                core_info ("[Checkstyle " +:+ AnnotationLevel.value (annotation_level a)
                             +:+ "] " +:+ path a +:+ ":" +:+ pretty (start_line a)
                             +:+ " " +:+ message a))
           annotations
    /\ List.filter is_inline_diagnostic events
       = map (fun a => command_issueCommand "error"
                         (mkProps (path a) (start_line a) (start_column a)) (message a))
           (List.filter
              (fun a => AnnotationLevel.eqb (annotation_level a) AnnotationLevel.failure)
              annotations)
    /\ Forall (fun ev => is_remote_call ev = false) events.
Proof.
  intros Hready.
  destruct (groupAnnotations_total annotations) as [groupedAnnotations Hgroup].
  exists (length groupedAnnotations). cbv zeta.
  destruct (preamble_kind env searchResult annotations (length groupedAnnotations))
    as (Hlocal & Hdiag & _).
  split; [| split; [| split]].
  - rewrite (run_dispatch env w "inline" searchResult annotations groupedAnnotations)
      by (assumption || now left).
    change (String.eqb "inline" "separate") with false. cbv iota.
    unfold try_catch. rewrite for_of_emit_inline. simpl.
    now rewrite <- app_assoc.
  - apply inline_events_info_lines.
  - rewrite List.filter_app, Hdiag. apply inline_events_diagnostics.
  - apply Forall_app. split; [assumption | apply inline_events_local].
Qed.

Lemma example_reaches_dispatch (mode : string) (annotations : list Annotation) :
  trim mode = mode ->
  reaches_dispatch (example_env mode annotations) mode example_search annotations.
Proof.
  intros Hmode.
  split; [discriminate |]. split; [exact Hmode |]. split; [reflexivity |].
  split; [discriminate |].
  exists [annotations]. split; [reflexivity |]. simpl. now rewrite app_nil_r.
Qed.

Lemma run_inline_witness :
  let env := example_env "inline" example_annotations in
  reaches_dispatch env "inline" example_search example_annotations
  /\ List.filter is_inline_diagnostic
       (trace (snd (run env (init_world (mkService [] 1 1)))))
     = [command_issueCommand "error" (mkProps "a.java" 10 None) "unused import"].
Proof.
  intros env.
  pose proof (example_reaches_dispatch "inline" example_annotations eq_refl) as Hready.
  split; [exact Hready |].
  destruct (run_inline env (init_world (mkService [] 1 1)) example_search
              example_annotations Hready) as (buckets & Hrun & _ & Hdiag & _).
  rewrite Hrun. exact Hdiag.
Defined.

Example run_inline_spec_example :
  let final := snd (run (example_env "inline" example_annotations)
                      (init_world (mkService [] 1 1))) in
  List.filter is_inline_diagnostic (trace final)
  = [command_issueCommand "error" (mkProps "a.java" 10 None) "unused import"]
  /\ drop 6 (trace final)
     = [ core_info "[Checkstyle failure] a.java:10 unused import";
         command_issueCommand "error" (mkProps "a.java" 10 None) "unused import";
         core_info "[Checkstyle warning] b.java:4 magic number" ]
  /\ List.filter is_remote_call (trace final) = []
  /\ remote final = mkService [] 1 1.
Proof. vm_compute. repeat split. Qed.

(** ** Early exits of the Pipeline Controller *)

(** C9: when the search returns no file, the run logs one warning line and
    ends; from the initial world the trace is the search call and that
    warning, so there is no write request and no inline diagnostic, the
    remote service is untouched and the exit code is success. *)
Theorem run_no_files {R : Type} `{Octokit R} (env : Env) (r : R)
    (searchResult : SearchResult) :
  INPUT env Inputs.Path <> EmptyString ->
  trim (INPUT env Inputs.Mode) = "inline" \/ trim (INPUT env Inputs.Mode) = "separate" ->
  findResults env (trim (INPUT env Inputs.Path)) = Ok searchResult ->
  filesToUpload searchResult = [] ->
  let events :=
    [ call_findResults (trim (INPUT env Inputs.Path)) (Ok searchResult);
      core_warning ("No files were found for the provided path: "
                      +:+ trim (INPUT env Inputs.Path)
                      +:+ ". No results will be uploaded.") ] in
  run env (init_world r) = (Ok tt, mkWorld events r Success)
  /\ write_requests events = []
  /\ List.filter is_inline_diagnostic events = []
  /\ Forall (fun ev => is_remote_call ev = false) events.
Proof.
  intros Hpath Hmode Hsearch Hfiles events.
  split; [| split; [reflexivity | split; [reflexivity | repeat constructor]]].
  unfold run, try_catch.
  unfold bind at 1. rewrite core_getInput_supplied by assumption.
  unfold bind at 1. rewrite core_getInput_optional.
  unfold bind at 1. rewrite core_getInput_optional.
  unfold bind at 1. rewrite core_getInput_optional.
  replace (negb (String.eqb (trim (INPUT env Inputs.Mode)) "inline")
           && negb (String.eqb (trim (INPUT env Inputs.Mode)) "separate"))
    with false by (destruct Hmode as [Hv | Hv]; rewrite Hv; reflexivity).
  unfold bind at 1. rewrite await_findResults_run, Hsearch, Hfiles.
  reflexivity.
Qed.

Lemma run_no_files_witness :
  let env := sample_env "build" "separate" [] (fun _ => Ok example_annotations) in
  run env (init_world (mkService [] 1 1))
  = (Ok tt,
     mkWorld [ call_findResults "build" (Ok (mkSearchResult [] "/work"));
               core_warning ("No files were found for the provided path: build"
                               +:+ ". No results will be uploaded.") ]
       (mkService [] 1 1) Success).
Proof.
  intros env.
  apply (run_no_files env (mkService [] 1 1) (mkSearchResult [] "/work")).
  - discriminate.
  - right. reflexivity.
  - reflexivity.
  - reflexivity.
Defined.

(** C7, as amended: when the required path is supplied and the mode, as
    [getInput] returns it (the input with the white space at its ends
    trimmed), is neither [inline] nor [separate], the run logs exactly one
    error line and ends normally; no collaborator is called, the remote
    service is untouched and the exit code stays success. *)
Theorem run_invalid_mode {R : Type} `{Octokit R} (env : Env) (r : R) :
  INPUT env Inputs.Path <> EmptyString ->
  trim (INPUT env Inputs.Mode) <> "inline" ->
  trim (INPUT env Inputs.Mode) <> "separate" ->
  run env (init_world r)
  = (Ok tt,
     mkWorld [core_error ("Invalid mode provided (" +:+ trim (INPUT env Inputs.Mode)
                            +:+ "). Use " +:+ dquote +:+ "inline" +:+ dquote +:+ " or "
                            +:+ dquote +:+ "separate" +:+ dquote +:+ ".")]
       r Success).
Proof.
  intros Hpath Hinline Hseparate.
  unfold run, try_catch.
  unfold bind at 1. rewrite core_getInput_supplied by assumption.
  unfold bind at 1. rewrite core_getInput_optional.
  unfold bind at 1. rewrite core_getInput_optional.
  unfold bind at 1. rewrite core_getInput_optional.
  apply String.eqb_neq in Hinline, Hseparate. rewrite Hinline, Hseparate.
  reflexivity.
Qed.

Lemma run_invalid_mode_witness :
  let env := example_env "bogus" example_annotations in
  exitCode (snd (run env (init_world (mkService [] 1 1)))) = Success
  /\ length (trace (snd (run env (init_world (mkService [] 1 1))))) = 1.
Proof.
  intros env.
  rewrite (run_invalid_mode env (mkService [] 1 1)).
  - split; reflexivity.
  - discriminate.
  - discriminate.
  - discriminate.
Defined.

(** The guard on the path comes first: without a path the run fails
    whatever the mode is. *)
Lemma run_missing_path {R : Type} `{Octokit R} (env : Env) (r : R) :
  INPUT env Inputs.Path = EmptyString ->
  run env (init_world r)
  = (Ok tt,
     mkWorld [core_error "Error: Input required and not supplied: path"] r Failure).
Proof.
  intros Hpath. unfold run, try_catch.
  unfold bind at 1. rewrite core_getInput_missing by assumption. reflexivity.
Qed.

(** The claim about every mode input that is not exactly [inline] or
    [separate] fails twice.  A required path that is not supplied fails the
    run before the mode is looked at.  And the mode is compared after
    [getInput] has trimmed it: the input [" inline"], which is not exactly
    [inline], runs the inline mode, with no error line. *)
Lemma run_invalid_mode_counterexample :
  let r := mkService [] 1 1 in
  let no_path := sample_env EmptyString "bogus" ["build/checkstyle.xml"] (fun _ => Ok []) in
  let padded := example_env " inline" example_annotations in
  (INPUT no_path Inputs.Mode <> "inline"
   /\ INPUT no_path Inputs.Mode <> "separate"
   /\ run no_path (init_world r)
      = (Ok tt,
         mkWorld [core_error "Error: Input required and not supplied: path"] r Failure)
   /\ exitCode (snd (run no_path (init_world r))) <> Success)
  /\ (INPUT padded Inputs.Mode <> "inline"
      /\ INPUT padded Inputs.Mode <> "separate"
      /\ run padded (init_world r)
         = (Ok tt,
            mkWorld (preamble padded example_search example_annotations 1
                     ++ flat_map inline_events example_annotations)
              r Success)
      /\ List.filter is_inline_diagnostic (trace (snd (run padded (init_world r))))
         = [command_issueCommand "error" (mkProps "a.java" 10 None) "unused import"]).
Proof. vm_compute. repeat split; discriminate. Qed.

(** ** Failing fast *)

Section FailFast.
Context {R : Type} `{Octokit R}.

Lemma stops_clean {A} (evs : list Event) (res : Result A) :
  Forall (fun ev => failed_call ev = None) evs -> stops_at_failure evs res.
Proof. now left. Qed.

(** A normal completion means that no call threw. *)
Lemma stops_ok {A} (evs : list Event) (a : A) :
  stops_at_failure evs (Ok a) -> Forall (fun ev => failed_call ev = None) evs.
Proof. intros [Hclean | (before & ev & e & _ & _ & _ & Hres)]; [assumption | discriminate]. Qed.

Lemma fail_fast_ret {A} (a : A) : fail_fast (R := R) (ret a).
Proof.
  intros w res w' [= <- <-]. exists []. rewrite app_nil_r.
  repeat split. apply stops_clean. constructor.
Qed.

Lemma fail_fast_lift {A} (r : Result A) : fail_fast (R := R) (lift r).
Proof.
  intros w res w' [= <- <-]. exists []. rewrite app_nil_r.
  repeat split. apply stops_clean. constructor.
Qed.

Lemma fail_fast_getInput env i required : fail_fast (R := R) (core_getInput env i required).
Proof.
  unfold core_getInput. destruct (required && _); [apply fail_fast_lift | apply fail_fast_ret].
Qed.

Lemma fail_fast_emit ev : failed_call ev = None -> fail_fast (R := R) (emit ev).
Proof.
  intros Hev w res w' [= <- <-]. exists [ev]. repeat split.
  apply stops_clean. repeat constructor. assumption.
Qed.

Lemma fail_fast_bind {A B} (m : Action R A) (k : A -> Action R B) :
  fail_fast m -> (forall a, fail_fast (k a)) -> fail_fast (bind m k).
Proof.
  intros Hm Hk w res w'. unfold bind.
  destruct (m w) as [[a | e] w1] eqn:Em.
  - intros Ek.
    destruct (Hm _ _ _ Em) as (evs1 & Ht1 & Hx1 & Hs1).
    destruct (Hk a _ _ _ Ek) as (evs2 & Ht2 & Hx2 & Hs2).
    exists (evs1 ++ evs2). rewrite Ht2, Ht1, app_assoc. split; [reflexivity |].
    split; [congruence |].
    apply stops_ok in Hs1.
    destruct Hs2 as [Hclean | (before & ev & e & -> & Hbefore & Hev & Hres)].
    + left. apply Forall_app. now split.
    + right. exists (evs1 ++ before), ev, e. rewrite app_assoc.
      repeat split; try assumption. apply Forall_app. now split.
  - intros [= <- <-].
    destruct (Hm _ _ _ Em) as (evs1 & Ht1 & Hx1 & Hs1).
    exists evs1. repeat split; try assumption.
    destruct Hs1 as [Hclean | (before & ev & e' & -> & Hbefore & Hev & Hres)].
    + now left.
    + right. exists before, ev, e'. repeat split; try assumption. congruence.
Qed.

(** A call to a collaborator, logged with its completion. *)
Lemma fail_fast_call {A} (ev : Result A -> Event) (r : Result A) :
  (forall r', failed_call (ev r') = thrown r') ->
  fail_fast (R := R) (emit (ev r) ;;; lift r).
Proof.
  intros Hev w res w'. rewrite bind_emit. intros [= <- <-].
  exists [ev r]. repeat split. destruct r as [a | e].
  - left. repeat constructor. apply Hev.
  - right. exists [], (ev (Throw e)), e.
    split; [reflexivity | split; [constructor | split; [apply Hev | reflexivity]]].
Qed.

Lemma fail_fast_octokit_call {A Req} (op : Req -> R -> Result A * R)
    (ev : Req -> Result A -> Event) (req : Req) :
  (forall r', failed_call (ev req r') = thrown r') ->
  fail_fast (octokit_call op ev req).
Proof.
  intros Hev w res w'. unfold octokit_call.
  destruct (op req (remote w)) as [r s]. intros [= <- <-].
  exists [ev req r]. repeat split. destruct r as [a | e].
  - left. repeat constructor. apply Hev.
  - right. exists [], (ev req (Throw e)), e.
    split; [reflexivity | split; [constructor | split; [apply Hev | reflexivity]]].
Qed.

Lemma fail_fast_for_of {A} (l : list A) (body : A -> Action R unit) :
  (forall x, fail_fast (body x)) -> fail_fast (for_of l body).
Proof.
  intros Hbody. induction l as [| x rest IH]; simpl.
  - apply fail_fast_ret.
  - apply fail_fast_bind; [apply Hbody | intros _; exact IH].
Qed.

Lemma fail_fast_map_list {A B} (fn : A -> Action R B) (l : list A) :
  (forall x, fail_fast (fn x)) -> fail_fast (map_list fn l).
Proof.
  intros Hfn. induction l as [| x rest IH]; simpl.
  - apply fail_fast_ret.
  - apply fail_fast_bind; [apply Hfn | intros y].
    apply fail_fast_bind; [exact IH | intros ys; apply fail_fast_ret].
Qed.

Lemma fail_fast_chain {A B} (fn : A -> Action R (list B)) (l : list A) :
  (forall x, fail_fast (fn x)) -> fail_fast (chain fn l).
Proof.
  intros Hfn. apply fail_fast_bind;
    [now apply fail_fast_map_list | intros ys; apply fail_fast_ret].
Qed.

Lemma fail_fast_if {A} (b : bool) (m1 m2 : Action R A) :
  fail_fast m1 -> fail_fast m2 -> fail_fast (if b then m1 else m2).
Proof. now destruct b. Qed.
End FailFast.

Lemma fail_fast_await_findResults {R : Type} env p :
  fail_fast (R := R) (await_findResults env p).
Proof. unfold await_findResults. apply (fail_fast_call (call_findResults p)). reflexivity. Qed.

Lemma fail_fast_call_annotations {R : Type} env f :
  fail_fast (R := R) (call_annotations env f).
Proof.
  unfold call_annotations. apply (fail_fast_call (call_annotationsForPath f)). reflexivity.
Qed.

Ltac fail_fast_step :=
  first
    [ apply fail_fast_await_findResults
    | apply fail_fast_call_annotations
    | apply fail_fast_octokit_call; intro; reflexivity
    | apply fail_fast_emit; reflexivity
    | apply fail_fast_getInput
    | apply fail_fast_lift
    | apply fail_fast_ret
    | apply fail_fast_chain; intro
    | apply fail_fast_for_of; intro
    | apply fail_fast_if
    | apply fail_fast_bind; [| intro] ].

Lemma fail_fast_createCheck {R : Type} `{Octokit R} env name title annotations
    numErrors conclusion :
  fail_fast (createCheck env name title annotations numErrors conclusion).
Proof.
  unfold createCheck, await_listForRef, await_create, await_update.
  repeat fail_fast_step. cbv zeta.
  match goal with |- fail_fast (match ?x with _ => _ end) => destruct x end;
    repeat fail_fast_step.
Qed.

Lemma fail_fast_emit_inline {R : Type} (a : Annotation) : fail_fast (R := R) (emit_inline a).
Proof. unfold emit_inline. repeat fail_fast_step. Qed.

Lemma failed_write_call (ev : Event) (e : JsError) :
  failed_write ev = Some e -> failed_call ev = Some e.
Proof. destruct ev; simpl; congruence. Qed.

(** In a trace whose only failed call is its last but one event, a failed
    call is that event. *)
Lemma failed_call_position (pre before after : list Event) (ev ev' err : Event) e :
  Forall (fun ev => failed_call ev = None) pre ->
  failed_call err = None ->
  failed_call ev = Some e ->
  pre ++ [ev'; err] = before ++ ev :: after ->
  ev = ev' /\ after = [err].
Proof.
  intros Hpre Herr Hev. revert before.
  induction Hpre as [| p pre Hp _ IH]; intros before Heq.
  - destruct before as [| b1 [| b2 before]]; simpl in Heq.
    + injection Heq as -> ->. now split.
    + injection Heq as -> -> _. congruence.
    + injection Heq as _ _ Heq. now destruct before.
  - destruct before as [| b before]; simpl in Heq.
    + injection Heq as -> _. congruence.
    + injection Heq as _ Heq. now apply IH with before.
Qed.

Lemma failed_call_clean (evs before after : list Event) (ev : Event) e :
  Forall (fun ev => failed_call ev = None) evs ->
  evs = before ++ ev :: after ->
  failed_call ev = Some e ->
  False.
Proof.
  intros Hclean -> Hev. apply Forall_app in Hclean as [_ Hclean].
  apply Forall_cons in Hclean as [Hnone _]. congruence.
Qed.

(** A fail-fast action run under [catch (error) { core.setFailed(error) }]
    from the initial world: a failed call is followed by the error line of
    [setFailed] and by nothing else, and the exit code is failure. *)
Lemma try_catch_fail_fast {R : Type} (m : Action R unit) (r : R)
    (before after : list Event) (ev : Event) (e : JsError) :
  fail_fast m ->
  trace (snd (try_catch m core_setFailed (init_world r))) = before ++ ev :: after ->
  failed_call ev = Some e ->
  fst (try_catch m core_setFailed (init_world r)) = Ok tt
  /\ after = [core_error (Error_toString e)]
  /\ exitCode (snd (try_catch m core_setFailed (init_world r))) = Failure.
Proof.
  intros Hm. unfold try_catch.
  destruct (m (init_world r)) as [[[] | e'] w'] eqn:Em;
    destruct (Hm _ _ _ Em) as (evs & Ht & Hx & Hs); simpl in Ht; simpl.
  - intros Heq Hev. exfalso. apply stops_ok in Hs.
    rewrite Ht in Heq. exact (failed_call_clean _ _ _ _ _ Hs Heq Hev).
  - rewrite Ht. intros Heq Hev.
    destruct Hs as [Hclean | (pre & ev' & e'' & -> & Hpre & Hev' & [= ->])].
    + exfalso. destruct after as [| a after _] using rev_ind.
      * apply app_inj_tail in Heq as [_ Heq]. subst ev. discriminate.
      * rewrite app_comm_cons, app_assoc in Heq.
        apply app_inj_tail in Heq as [Heq _].
        exact (failed_call_clean _ _ _ _ _ Hclean Heq Hev).
    + rewrite <- app_assoc in Heq. simpl in Heq.
      destruct (failed_call_position pre before after ev ev'
                  (core_error (Error_toString e'')) e Hpre eq_refl Hev Heq) as [-> ->].
      replace e'' with e by congruence. repeat split.
Qed.

(** C5: in the trace of a run, a create or update call that threw is
    followed by exactly one event, the error line that [setFailed] writes
    for the error thrown, which is [error.toString()]: its name and its
    message; no later request is made, the run itself ends normally and the
    exit code of the process is failure. *)
Theorem run_fails_fast {R : Type} `{Octokit R} (env : Env) (r : R)
    (before after : list Event) (ev : Event) (e : JsError) :
  trace (snd (run env (init_world r))) = before ++ ev :: after ->
  failed_write ev = Some e ->
  fst (run env (init_world r)) = Ok tt
  /\ after = [core_error (Error_toString e)]
  /\ exitCode (snd (run env (init_world r))) = Failure.
Proof.
  intros Htrace Hev. apply failed_write_call in Hev.
  revert Htrace Hev. unfold run. apply try_catch_fail_fast.
  repeat first [apply fail_fast_createCheck | apply fail_fast_emit_inline | fail_fast_step].
Qed.

Lemma run_fails_fast_witness :
  let env := example_env "separate" sixty_notices in
  let final := snd (run env (init_world (mkService [] 1 1))) in
  let failed := default (core_debug EmptyString) (trace final !! 11) in
  failed_write failed = Some service_unavailable
  /\ drop 12 (trace final) = [core_error "HttpError: Service Unavailable"]
  /\ exitCode final = Failure
  /\ map length (submitted (trace final)) = [50; 10].
Proof.
  intros env final failed.
  assert (Hfailed : failed_write failed = Some service_unavailable)
    by (vm_compute; reflexivity).
  destruct (run_fails_fast env (mkService [] 1 1) (take 11 (trace final)) (drop 12 (trace final))
              failed service_unavailable) as (_ & Hafter & Hexit).
  - vm_compute. reflexivity.
  - exact Hfailed.
  - split; [exact Hfailed |]. split; [exact Hafter |]. split; [exact Hexit |].
    vm_compute. reflexivity.
Defined.

(** ** Separate mode *)

Section SeparateMode.
Context {R : Type} `{Octokit R}.
Variable env : Env.
Variables (name title : string) (numErrors : nat) (conclusion : Conclusion.t).

(** One call of the Check Reporter makes at most one write; it makes
    exactly one, with the batch, the total and the conclusion it was
    given, unless it throws before writing. *)
Lemma createCheck_writes (annotations : list Annotation) (w : World R) res w' :
  createCheck env name title annotations numErrors conclusion w = (res, w') ->
  exists evs,
    trace w' = trace w ++ evs
    /\ exitCode w' = exitCode w
    /\ ((exists e, res = Throw e /\ write_requests evs = [])
        \/ exists tgt,
             write_requests evs
             = [mkWrite tgt conclusion completed
                  (mkOutput title (violations_found numErrors) annotations)]).
Proof.
  destruct (getOctokit (client_token env)) as [octokit | e] eqn:Hclient.
  - destruct (checks_listForRef octokit (listing env) (remote w))
      as [[check_runs | e] s] eqn:Hlist.
    + destruct (List.find (fun check => String.eqb (CheckRun.name check) name) check_runs)
        as [existing |] eqn:Hfind.
      * rewrite (createCheck_updates env name title annotations numErrors conclusion
                   w octokit check_runs s existing Hclient Hlist Hfind).
        intros [= <- <-]. eexists. split; [reflexivity |]. split; [reflexivity |].
        right. eexists. reflexivity.
      * rewrite (createCheck_creates env name title annotations numErrors conclusion
                   w octokit check_runs s Hclient Hlist Hfind).
        intros [= <- <-]. eexists. split; [reflexivity |]. split; [reflexivity |].
        right. eexists. reflexivity.
    + rewrite (createCheck_list_throws env name title annotations numErrors conclusion
                 w octokit e s Hclient Hlist).
      intros [= <- <-]. eexists. split; [reflexivity |]. split; [reflexivity |].
      left. exists e. split; reflexivity.
  - rewrite (createCheck_client_throws env name title annotations numErrors conclusion
               w e Hclient).
    intros [= <- <-]. eexists. split; [reflexivity |]. split; [reflexivity |].
    left. exists e. split; reflexivity.
Qed.

(** The loop over the batches: every write carries the same total and
    conclusion; the batches are submitted in order, one write each, up to
    the first call that throws. *)
Lemma for_of_createCheck_writes (batches : list (list Annotation)) (w : World R) res w' :
  for_of batches (fun annotationSet =>
    createCheck env name title annotationSet numErrors conclusion) w = (res, w') ->
  exists evs,
    trace w' = trace w ++ evs
    /\ exitCode w' = exitCode w
    /\ Forall (fun wr =>
                 written_conclusion wr = conclusion
                 /\ written_status wr = completed
                 /\ output_title (written_output wr) = title
                 /\ summary (written_output wr) = violations_found numErrors)
         (write_requests evs)
    /\ submitted evs `prefix_of` batches
    /\ (res = Ok tt -> submitted evs = batches).
Proof.
  revert w. induction batches as [| b rest IH]; intros w; simpl.
  - intros [= <- <-]. exists []. rewrite app_nil_r.
    repeat split; [constructor | apply prefix_nil].
  - unfold bind.
    destruct (createCheck env name title b numErrors conclusion w)
      as [[[] | e] w1] eqn:Hcall;
      destruct (createCheck_writes b w _ _ Hcall) as (evs1 & Ht1 & Hx1 & Hw1).
    + intros Hrest. destruct (IH _ Hrest) as (evs2 & Ht2 & Hx2 & Hall & Hpre & Hdone).
      destruct Hw1 as [(e & [=] & _) | (tgt & Hw1)].
      exists (evs1 ++ evs2). rewrite Ht2, Ht1, app_assoc.
      split; [reflexivity |]. split; [congruence |].
      unfold submitted, write_requests in *. rewrite omap_app, Hw1. simpl.
      split; [constructor; [repeat split | assumption] |].
      split; [now apply prefix_cons |].
      intros Hok. now rewrite Hdone.
    + intros [= <- <-]. exists evs1.
      split; [assumption |]. split; [assumption |].
      unfold submitted. destruct Hw1 as [(e' & _ & Hw1) | (tgt & Hw1)]; rewrite Hw1; simpl.
      * repeat split; [constructor | apply prefix_nil | discriminate].
      * repeat split; [repeat constructor | | discriminate].
        apply prefix_cons, prefix_nil.
Qed.
End SeparateMode.

Lemma for_of_singleton {R A} (x : A) (body : A -> Action R unit) (w : World R) :
  for_of [x] body w = body x w.
Proof. simpl. unfold bind, ret. destruct (body x w) as [[[] | e] w']; reflexivity. Qed.

Section SeparateModeProgress.
Context {R : Type} `{Octokit R}.
Variable env : Env.
Variables (name title : string) (numErrors : nat) (conclusion : Conclusion.t).

(** With a client, the Check Reporter throws only the error of a remote
    call that threw, and that call is in the trace. *)
Lemma createCheck_throw_event (annotations : list Annotation) (w w' : World R)
    (octokit : Client) (e : JsError) :
  getOctokit (client_token env) = Ok octokit ->
  createCheck env name title annotations numErrors conclusion w = (Throw e, w') ->
  Exists (fun ev => failed_call ev = Some e) (trace w').
Proof.
  intros Hclient.
  destruct (checks_listForRef octokit (listing env) (remote w))
    as [[check_runs | e0] s] eqn:Hlist.
  - destruct (List.find (fun check => String.eqb (CheckRun.name check) name) check_runs)
      as [existing |] eqn:Hfind.
    + rewrite (createCheck_updates env name title annotations numErrors conclusion
                 w octokit check_runs s existing Hclient Hlist Hfind).
      cbv zeta. intros [= Hres <-]. cbn [trace].
      apply Exists_app. right. do 2 apply Exists_cons_tl. apply Exists_cons_hd.
      cbn [failed_call]. now rewrite Hres.
    + rewrite (createCheck_creates env name title annotations numErrors conclusion
                 w octokit check_runs s Hclient Hlist Hfind).
      cbv zeta. intros [= Hres <-]. cbn [trace].
      apply Exists_app. right. do 2 apply Exists_cons_tl. apply Exists_cons_hd.
      cbn [failed_call]. now rewrite Hres.
  - rewrite (createCheck_list_throws env name title annotations numErrors conclusion
               w octokit e0 s Hclient Hlist).
    intros [= <- <-]. cbn [trace].
    apply Exists_app. right. apply Exists_cons_tl. apply Exists_cons_hd. reflexivity.
Qed.

Lemma for_of_createCheck_throw_event (batches : list (list Annotation)) (w w' : World R)
    (octokit : Client) (e : JsError) :
  getOctokit (client_token env) = Ok octokit ->
  for_of batches (fun annotationSet =>
    createCheck env name title annotationSet numErrors conclusion) w = (Throw e, w') ->
  Exists (fun ev => failed_call ev = Some e) (trace w').
Proof.
  intros Hclient. revert w. induction batches as [| b rest IH]; intros w; cbn [for_of].
  - discriminate.
  - unfold bind.
    destruct (createCheck env name title b numErrors conclusion w)
      as [[[] | e1] w1] eqn:Hcall.
    + apply IH.
    + intros [= <- <-]. exact (createCheck_throw_event b w w1 octokit e1 Hclient Hcall).
Qed.
End SeparateModeProgress.

Lemma failed_call_absent (evs : list Event) (e : JsError) :
  Forall (fun ev => failed_call ev = None) evs ->
  Exists (fun ev => failed_call ev = Some e) evs ->
  False.
Proof.
  intros Hnone Hsome. induction Hsome as [ev rest Hev | ev rest _ IH].
  - apply Forall_cons in Hnone as [Hnone _]. congruence.
  - apply Forall_cons in Hnone as [_ Hnone]. exact (IH Hnone).
Qed.

(** C4: in separate mode, every create or update request of the run has as
    its summary [<totalCount> violation(s) found], where [totalCount] is the
    length of the whole annotation sequence, and as its conclusion the
    verdict of the whole sequence; the requests submit the batches in order,
    one request per batch, all of them when the exit code is success.  The
    requests are made: once the client is built, unless some call in the
    trace threw, the exit code is success and every batch is submitted. *)
Theorem run_separate_totals {R : Type} `{Octokit R} (env : Env) (r : R)
    (searchResult : SearchResult) (annotations : list Annotation)
    (groupedAnnotations : list (list Annotation)) :
  reaches_dispatch env "separate" searchResult annotations ->
  groupAnnotations MAX_ANNOTATIONS_PER_REQUEST annotations = Ok groupedAnnotations ->
  let final := snd (run env (init_world r)) in
  Forall (fun wr =>
            summary (written_output wr)
            = pretty (length annotations) +:+ " violation(s) found"
            /\ written_conclusion wr = getConclusion annotations)
    (write_requests (trace final))
  /\ submitted (trace final) `prefix_of` groupedAnnotations
  /\ (exitCode final = Success -> submitted (trace final) = groupedAnnotations)
  /\ (forall octokit,
        getOctokit (trim (INPUT env Inputs.Token)) = Ok octokit ->
        Forall (fun ev => failed_call ev = None) (trace final) ->
        exitCode final = Success /\ submitted (trace final) = groupedAnnotations).
Proof.
  intros Hready Hgroup final. subst final.
  rewrite (run_dispatch env (init_world r) "separate" searchResult annotations
             groupedAnnotations) by (assumption || now right).
  change (String.eqb "separate" "separate") with true. cbv iota.
  destruct (preamble_kind env searchResult annotations (length groupedAnnotations))
    as (_ & _ & Hpreamble).
  unfold try_catch.
  match goal with |- context [for_of ?l ?body ?w] =>
    destruct (for_of l body w) as [[[] | e] w1] eqn:Hloop
  end;
    destruct (for_of_createCheck_writes env _ _ _ _ _ _ _ _ Hloop)
      as (evs & Ht & Hx & Hall & Hprefix & Hdone);
    cbn [trace remote exitCode init_world app snd fst core_setFailed] in *.
  - unfold submitted, write_requests in *. rewrite Ht, omap_app.
    rewrite Hpreamble. simpl.
    split; [| split; [assumption | split; [intros _; now apply Hdone |]]].
    + eapply Forall_impl; [exact Hall |]. simpl. intros wr (Hc & _ & _ & Hs). now split.
    + intros octokit _ _. split; [exact Hx | now apply Hdone].
  - split; [| split; [| split; [discriminate |]]].
    + unfold submitted, write_requests in *. rewrite Ht, !omap_app.
      rewrite Hpreamble. simpl. rewrite app_nil_r.
      eapply Forall_impl; [exact Hall |]. simpl. intros wr (Hc & _ & _ & Hs). now split.
    + unfold submitted, write_requests in *. rewrite Ht, !omap_app.
      rewrite Hpreamble. simpl. rewrite app_nil_r. assumption.
    + intros octokit Hclient Hnone. exfalso.
      apply Forall_app in Hnone as [Hnone _].
      exact (failed_call_absent _ e Hnone
               (for_of_createCheck_throw_event env _ _ _ _ _ _ _ octokit e Hclient Hloop)).
Qed.

Lemma run_separate_totals_witness :
  let env := example_env "separate" sixty_notices in
  let final := snd (run env (init_world (mkService [] 1 5))) in
  reaches_dispatch env "separate" example_search sixty_notices
  /\ groupAnnotations MAX_ANNOTATIONS_PER_REQUEST sixty_notices
     = Ok [take 50 sixty_notices; drop 50 sixty_notices]
  /\ Forall (fun wr =>
               summary (written_output wr)
               = pretty (length sixty_notices) +:+ " violation(s) found"
               /\ written_conclusion wr = getConclusion sixty_notices)
       (write_requests (trace final))
  /\ submitted (trace final) `prefix_of` [take 50 sixty_notices; drop 50 sixty_notices]
  /\ getOctokit (trim (INPUT env Inputs.Token)) = Ok example_client
  /\ Forall (fun ev => failed_call ev = None) (trace final)
  /\ exitCode final = Success
  /\ submitted (trace final) = [take 50 sixty_notices; drop 50 sixty_notices]
  /\ map length (submitted (trace final)) = [50; 10]
  /\ map (fun wr => summary (written_output wr)) (write_requests (trace final))
     = ["60 violation(s) found"; "60 violation(s) found"].
Proof.
  intros env final.
  pose proof (example_reaches_dispatch "separate" sixty_notices eq_refl) as Hready.
  assert (Hgroup : groupAnnotations MAX_ANNOTATIONS_PER_REQUEST sixty_notices
                   = Ok [take 50 sixty_notices; drop 50 sixty_notices])
    by (vm_compute; reflexivity).
  assert (Hclient : getOctokit (trim (INPUT env Inputs.Token)) = Ok example_client)
    by reflexivity.
  assert (Hnone : Forall (fun ev => failed_call ev = None) (trace final))
    by (vm_compute; repeat constructor).
  destruct (run_separate_totals env (mkService [] 1 5) example_search sixty_notices
              [take 50 sixty_notices; drop 50 sixty_notices] Hready Hgroup)
    as (Hall & Hprefix & _ & Hprogress).
  destruct (Hprogress example_client Hclient Hnone) as [Hexit Hsubmitted].
  split; [exact Hready |]. split; [exact Hgroup |]. split; [exact Hall |].
  split; [exact Hprefix |]. split; [exact Hclient |]. split; [exact Hnone |].
  split; [exact Hexit |]. split; [exact Hsubmitted |].
  split; vm_compute; reflexivity.
Defined.

(** C8: the Batcher returns the single empty batch for the empty sequence,
    whatever the limit; so in separate mode, when files are found and parse
    into no annotation, the Check Reporter is called once, with the empty
    batch, and when its lookup answers it makes exactly one write request,
    with conclusion success, status completed and summary
    [0 violation(s) found]. *)
Theorem run_separate_no_annotations {R : Type} `{Octokit R} (env : Env) (r : R)
    (searchResult : SearchResult) (octokit : Client) (check_runs : list CheckRun.t) (s : R) :
  reaches_dispatch env "separate" searchResult [] ->
  getOctokit (trim (INPUT env Inputs.Token)) = Ok octokit ->
  checks_listForRef octokit
    (mkListForRef (context_repo (context env)) (resolved_sha env)) r = (Ok check_runs, s) ->
  (forall limit, groupAnnotations limit [] = Ok [[]])
  /\ run env (init_world r)
     = try_catch
         (createCheck env (trim (INPUT env Inputs.Name)) (trim (INPUT env Inputs.Title))
            [] 0 Conclusion.success)
         core_setFailed
         (mkWorld (preamble env searchResult [] 1) r Success)
  /\ write_requests (trace (snd (run env (init_world r))))
     = [mkWrite
          (CheckRun.id <$>
             List.find (fun check =>
                          String.eqb (CheckRun.name check) (trim (INPUT env Inputs.Name)))
               check_runs)
          Conclusion.success completed
          (mkOutput (trim (INPUT env Inputs.Title)) "0 violation(s) found" [])].
Proof.
  intros Hready Hclient Hlist.
  assert (Hbatch : forall limit, groupAnnotations limit [] = Ok [[]]).
  { intros limit. unfold groupAnnotations. simpl.
    destruct (limit <? 0) eqn:E; [| reflexivity]. apply Nat.ltb_lt in E. lia. }
  assert (Hrun : run env (init_world r)
            = try_catch
                (createCheck env (trim (INPUT env Inputs.Name))
                   (trim (INPUT env Inputs.Title)) [] 0 Conclusion.success)
                core_setFailed
                (mkWorld (preamble env searchResult [] 1) r Success)).
  { rewrite (run_dispatch env (init_world r) "separate" searchResult [] [[]])
      by (assumption || (now right) || apply Hbatch).
    change (String.eqb "separate" "separate") with true. cbv iota.
    unfold try_catch. rewrite for_of_singleton. reflexivity. }
  split; [exact Hbatch |]. split; [exact Hrun |].
  rewrite Hrun. unfold try_catch.
  destruct (preamble_kind env searchResult [] 1) as (_ & _ & Hpreamble).
  destruct (List.find (fun check =>
                         String.eqb (CheckRun.name check) (trim (INPUT env Inputs.Name)))
              check_runs) as [existing |] eqn:Hfind.
  - rewrite (createCheck_updates env _ _ [] 0 Conclusion.success
               (mkWorld (preamble env searchResult [] 1) r Success)
               octokit check_runs s existing Hclient Hlist Hfind).
    cbv zeta. destruct (checks_update _ _ s) as [[[] | e] s'];
      cbn [trace snd fst core_setFailed];
      unfold write_requests in *; rewrite !omap_app, Hpreamble; reflexivity.
  - rewrite (createCheck_creates env _ _ [] 0 Conclusion.success
               (mkWorld (preamble env searchResult [] 1) r Success)
               octokit check_runs s Hclient Hlist Hfind).
    cbv zeta. destruct (checks_create _ _ s) as [[[] | e] s'];
      cbn [trace snd fst core_setFailed];
      unfold write_requests in *; rewrite !omap_app, Hpreamble; reflexivity.
Qed.

Lemma run_separate_no_annotations_witness :
  let env := example_env "separate" [] in
  let r := mkService [] 1 5 in
  reaches_dispatch env "separate" example_search []
  /\ write_requests (trace (snd (run env (init_world r))))
     = [mkWrite None Conclusion.success completed
          (mkOutput "Checkstyle" "0 violation(s) found" [])].
Proof.
  intros env r.
  pose proof (example_reaches_dispatch "separate" [] eq_refl) as Hready.
  split; [exact Hready |].
  assert (Hclient : getOctokit (trim (INPUT env Inputs.Token)) = Ok example_client) by reflexivity.
  assert (Hlist : checks_listForRef example_client
                    (mkListForRef (context_repo (context env)) (resolved_sha env)) r
                  = (Ok [], r)) by reflexivity.
  destruct (run_separate_no_annotations env r example_search example_client [] r
              Hready Hclient Hlist)
    as (_ & _ & Hwrites).
  exact Hwrites.
Defined.

(** * Further properties *)

(** ** The batches as windows *)

Section Windows.
Context {A : Type}.
Implicit Types (l : list A) (result : list (list A)).

Lemma round_up_step (m r : nat) :
  0 < r -> (r + m) / S m = S ((r - S m + m) / S m).
Proof.
  intros Hr. destruct (le_lt_dec (S m) r) as [Hge | Hlt].
  - replace (r + m) with ((r - S m + m) + 1 * S m) by lia.
    rewrite Nat.div_add by lia. lia.
  - replace (r - S m + m) with m by lia.
    rewrite (Nat.div_small m (S m)) by lia.
    replace (r + m) with ((r - 1) + 1 * S m) by lia.
    rewrite Nat.div_add by lia. rewrite Nat.div_small by lia. reflexivity.
Qed.

(** The loop appends the windows that start at [idx], [idx + S m], ... as
    long as they start inside the list. *)
Lemma splitEvery_loop_windows m l idx result :
  splitEvery_loop m l idx result
  = result ++ map (fun j => take (S m) (drop (idx + j * S m) l))
                (seq 0 ((length l - idx + m) / S m)).
Proof.
  remember (length l - idx) as k eqn:Hk.
  revert idx result Hk.
  induction (lt_wf k) as [k _ IH]. intros idx result ->.
  destruct (lt_dec idx (length l)) as [Hlt | Hge].
  - rewrite splitEvery_loop_step by assumption.
    rewrite (IH (length l - (idx + S m))) by (lia || reflexivity).
    rewrite (round_up_step m (length l - idx)) by lia.
    replace (length l - (idx + S m)) with (length l - idx - S m) by lia.
    rewrite <- app_assoc. f_equal.
    cbn [seq map app]. rewrite Nat.add_0_r. f_equal.
    rewrite <- seq_shift, map_map.
    apply map_ext. intros j. do 2 f_equal. lia.
  - rewrite splitEvery_loop_done by lia.
    replace (length l - idx) with 0 by lia.
    rewrite Nat.div_small by lia. simpl. now rewrite app_nil_r.
Qed.
End Windows.

(** X1: for a positive limit the Batcher returns exactly the consecutive
    windows of [limit] annotations, as many as the length divided by the
    limit rounded up, and one (empty) window for no annotation. *)
Theorem groupAnnotations_windows (annotations : list Annotation) (limit : nat) :
  0 < limit ->
  groupAnnotations limit annotations
  = Ok (map (window limit annotations)
          (seq 0 (bucket_count limit (length annotations)))).
Proof.
  intros Hpos. unfold groupAnnotations, bucket_count, window.
  destruct (Nat.ltb_spec limit (length annotations)) as [Hlong | Hshort].
  - destruct limit as [| m]; [lia |]. simpl splitEvery.
    rewrite splitEvery_loop_windows. simpl app. f_equal.
    rewrite Nat.sub_0_r.
    replace (length annotations + S m - 1) with (length annotations + m) by lia.
    assert (1 <= (length annotations + m) / S m).
    { apply Nat.div_le_lower_bound; lia. }
    rewrite Nat.max_r by lia. reflexivity.
  - assert (Hone : Nat.max 1 ((length annotations + limit - 1) / limit) = 1).
    { destruct (length annotations) as [| n] eqn:Hlen.
      - rewrite Nat.div_small by lia. reflexivity.
      - replace (S n + limit - 1) with (n + 1 * limit) by lia.
        rewrite Nat.div_add by lia. rewrite Nat.div_small by lia. reflexivity. }
    rewrite Hone. simpl. rewrite take_ge by assumption. reflexivity.
Qed.

Lemma groupAnnotations_windows_witness :
  groupAnnotations MAX_ANNOTATIONS_PER_REQUEST sixty_notices
  = Ok (map (window 50 sixty_notices) (seq 0 (bucket_count 50 (length sixty_notices))))
  /\ bucket_count 50 (length sixty_notices) = 2.
Proof.
  split; [| reflexivity].
  apply (groupAnnotations_windows sixty_notices 50). lia.
Defined.

(** X2: for a positive limit and at least one annotation, no batch is empty
    and no batch has more than [limit] annotations; the sizes of the batches
    add up to the number of annotations. *)
Theorem groupAnnotations_no_empty_batch (annotations : list Annotation) (limit : nat) :
  0 < limit ->
  annotations <> [] ->
  exists groupedAnnotations,
    groupAnnotations limit annotations = Ok groupedAnnotations
    /\ Forall (fun b => 0 < length b <= limit) groupedAnnotations
    /\ sum_list (map length groupedAnnotations) = length annotations.
Proof.
  intros Hpos Hne. unfold groupAnnotations.
  assert (Hlen : 0 < length annotations) by (destruct annotations; simpl; [congruence | lia]).
  destruct (Nat.ltb_spec limit (length annotations)) as [Hlong | Hshort].
  - destruct limit as [| m]; [lia |]. simpl.
    destruct (splitEvery_loop_shape m annotations 0 [] ltac:(lia) ltac:(constructor))
      as (pre & lst & Heq & Hfull & Hlst).
    eexists. split; [reflexivity |]. split.
    + rewrite Heq. apply Forall_app. split.
      * eapply Forall_impl; [exact Hfull |]. simpl. intros b Hb. lia.
      * constructor; [lia | constructor].
    + change (map length) with (fmap (M := list) (@length Annotation)).
      rewrite <- length_concat. now rewrite splitEvery_loop_concat.
  - eexists. split; [reflexivity |]. split.
    + constructor; [lia | constructor].
    + simpl. lia.
Qed.

Lemma groupAnnotations_no_empty_batch_witness :
  0 < 50 /\ sixty_notices <> []
  /\ exists groupedAnnotations,
       groupAnnotations 50 sixty_notices = Ok groupedAnnotations
       /\ Forall (fun b => 0 < length b <= 50) groupedAnnotations
       /\ sum_list (map length groupedAnnotations) = length sixty_notices.
Proof.
  assert (Hne : sixty_notices <> []) by discriminate.
  split; [lia |]. split; [exact Hne |].
  apply (groupAnnotations_no_empty_batch sixty_notices 50); [lia | exact Hne].
Defined.

(** ** The verdict of a whole and of its parts *)

Lemma getConclusion_app (A B : list Annotation) :
  getConclusion (A ++ B) = worst_conclusion (getConclusion A) (getConclusion B).
Proof.
  rewrite !getConclusion_precedence, !has_level_app.
  destruct (has_level AnnotationLevel.failure A), (has_level AnnotationLevel.failure B),
    (has_level AnnotationLevel.warning A), (has_level AnnotationLevel.warning B);
    reflexivity.
Qed.

(** X3: the verdict of annotations given in parts (per file, per batch) is
    the worst of the verdicts of the parts, with success for no part. *)
Theorem getConclusion_concat (parts : list (list Annotation)) :
  getConclusion (concat parts)
  = foldr worst_conclusion Conclusion.success (map getConclusion parts).
Proof.
  induction parts as [| part rest IH]; [reflexivity |].
  cbn [concat map foldr]. now rewrite getConclusion_app, IH.
Qed.

(** ** The outcome of a run *)

(** A fail-fast action under the catch of [run], from the initial world. *)
Lemma try_catch_outcome {R : Type} (m : Action R unit) (r : R) :
  fail_fast m ->
  let final := try_catch m core_setFailed (init_world r) in
  fst final = Ok tt
  /\ (exitCode (snd final) = Success ->
      Forall (fun ev => failed_call ev = None) (trace (snd final)))
  /\ (exitCode (snd final) = Failure ->
      exists before e,
        trace (snd final) = before ++ [core_error (Error_toString e)]
        /\ (Forall (fun ev => failed_call ev = None) before
            \/ exists earlier ev,
                 before = earlier ++ [ev]
                 /\ Forall (fun ev => failed_call ev = None) earlier
                 /\ failed_call ev = Some e)).
Proof.
  intros Hm. unfold try_catch.
  destruct (m (init_world r)) as [[[] | e] w'] eqn:Em;
    destruct (Hm _ _ _ Em) as (evs & Ht & Hx & Hs); simpl in *.
  - split; [reflexivity |]. split.
    + intros _. rewrite Ht. now apply stops_ok in Hs.
    + congruence.
  - split; [reflexivity |]. split; [discriminate |].
    intros _. exists (trace w'), e. split; [reflexivity |]. rewrite Ht.
    destruct Hs as [Hclean | (earlier & ev & e' & -> & Hearlier & Hev & [= ->])].
    + now left.
    + right. exists earlier, ev. now repeat split.
Qed.

(** X4: a run never throws: whatever the inputs, the collaborators and the
    service do, [run] completes normally.  Its exit code is success only if
    no collaborator call threw.  It is failure only with, as the last event,
    the line that [setFailed] writes for an error, [error.toString()]; no
    collaborator call before it threw, except possibly the one just before
    it, and then the line is for the error of that call. *)
Theorem run_outcome {R : Type} `{Octokit R} (env : Env) (r : R) :
  let final := run env (init_world r) in
  fst final = Ok tt
  /\ (exitCode (snd final) = Success ->
      Forall (fun ev => failed_call ev = None) (trace (snd final)))
  /\ (exitCode (snd final) = Failure ->
      exists before e,
        trace (snd final) = before ++ [core_error (Error_toString e)]
        /\ (Forall (fun ev => failed_call ev = None) before
            \/ exists earlier ev,
                 before = earlier ++ [ev]
                 /\ Forall (fun ev => failed_call ev = None) earlier
                 /\ failed_call ev = Some e)).
Proof.
  unfold run. apply try_catch_outcome.
  repeat first [apply fail_fast_createCheck | apply fail_fast_emit_inline | fail_fast_step].
Qed.

(** X5: in the trace of a run, a call to any collaborator that threw (the
    search, the parser, the listing, a create or an update) is followed by
    exactly one event, the error line that [setFailed] writes for the error
    thrown, which is [error.toString()], and the exit code is failure. *)
Theorem run_collaborator_failure {R : Type} `{Octokit R} (env : Env) (r : R)
    (before after : list Event) (ev : Event) (e : JsError) :
  trace (snd (run env (init_world r))) = before ++ ev :: after ->
  failed_call ev = Some e ->
  after = [core_error (Error_toString e)]
  /\ exitCode (snd (run env (init_world r))) = Failure.
Proof.
  intros Htrace Hev.
  enough (fst (run env (init_world r)) = Ok tt
          /\ after = [core_error (Error_toString e)]
          /\ exitCode (snd (run env (init_world r))) = Failure) as (_ & Hafter & Hexit)
    by now split.
  revert Htrace Hev. unfold run. apply try_catch_fail_fast.
  repeat first [apply fail_fast_createCheck | apply fail_fast_emit_inline | fail_fast_step].
Qed.

Lemma run_collaborator_failure_witness :
  let final := snd (run (broken_file_env "inline") (init_world (mkService [] 1 1))) in
  let rejected :=
    snd (run (example_env "separate" sixty_notices) (init_world (mkService [] 1 1))) in
  let failed := default (core_debug EmptyString) (trace rejected !! 11) in
  (failed_call (call_annotationsForPath "b.xml" (Throw parse_error)) = Some parse_error
   /\ drop 5 (trace final) = [core_error "Error: Unexpected end of input"]
   /\ exitCode final = Failure)
  /\ (failed_call failed = Some service_unavailable
      /\ is_write_call failed = true
      /\ drop 12 (trace rejected) = [core_error "HttpError: Service Unavailable"]
      /\ exitCode rejected = Failure).
Proof.
  intros final rejected failed. split.
  - split; [reflexivity |].
    apply (run_collaborator_failure (broken_file_env "inline") (mkService [] 1 1)
             (take 4 (trace final)) (drop 5 (trace final))
             (call_annotationsForPath "b.xml" (Throw parse_error)) parse_error).
    + vm_compute. reflexivity.
    + reflexivity.
  - assert (Hfailed : failed_call failed = Some service_unavailable)
      by (vm_compute; reflexivity).
    split; [exact Hfailed |]. split; [vm_compute; reflexivity |].
    apply (run_collaborator_failure (example_env "separate" sixty_notices)
             (mkService [] 1 1) (take 11 (trace rejected)) (drop 12 (trace rejected))
             failed service_unavailable).
    + vm_compute. reflexivity.
    + exact Hfailed.
Defined.

(** ** Failing collaborators, step by step *)

Section Failures.
Context {R : Type} `{Octokit R}.
Variable env : Env.

(** A search that throws, from any world. *)
Lemma run_search_throws_from (w : World R) (e : JsError) :
  INPUT env Inputs.Path <> EmptyString ->
  trim (INPUT env Inputs.Mode) = "inline" \/ trim (INPUT env Inputs.Mode) = "separate" ->
  findResults env (trim (INPUT env Inputs.Path)) = Throw e ->
  run env w
  = (Ok tt,
     mkWorld (trace w ++ [call_findResults (trim (INPUT env Inputs.Path)) (Throw e);
                          core_error (Error_toString e)])
       (remote w) Failure).
Proof.
  intros Hpath Hmode Hsearch.
  unfold run, try_catch.
  unfold bind at 1. rewrite core_getInput_supplied by assumption.
  unfold bind at 1. rewrite core_getInput_optional.
  unfold bind at 1. rewrite core_getInput_optional.
  unfold bind at 1. rewrite core_getInput_optional.
  replace (negb (String.eqb (trim (INPUT env Inputs.Mode)) "inline")
           && negb (String.eqb (trim (INPUT env Inputs.Mode)) "separate"))
    with false by (destruct Hmode as [Hv | Hv]; rewrite Hv; reflexivity).
  unfold bind at 1. rewrite await_findResults_run, Hsearch.
  unfold core_setFailed. cbn [trace remote exitCode].
  rewrite <- app_assoc. reflexivity.
Qed.

Lemma parse_all_throws (before after : list string) f e :
  Forall (fun f' => exists anns, annotationsForPath env f' = Ok anns) before ->
  annotationsForPath env f = Throw e ->
  parse_all env (before ++ f :: after) = Throw e
  /\ parse_events env (before ++ f :: after)
     = map (fun f' => call_annotationsForPath f' (annotationsForPath env f')) before
       ++ [call_annotationsForPath f (Throw e)].
Proof.
  intros Hbefore Hf. induction Hbefore as [| f' rest (anns & Hf') _ [IH1 IH2]]; simpl.
  - rewrite Hf. split; reflexivity.
  - rewrite Hf', IH1, IH2. split; reflexivity.
Qed.

End Failures.

(** X6: when the search throws, the run calls nothing else: from the
    initial world the trace is the search call and the error line of
    [setFailed], the remote service is untouched and the exit code is
    failure, in either mode. *)
Theorem run_search_throws {R : Type} `{Octokit R} (env : Env) (r : R) (e : JsError) :
  INPUT env Inputs.Path <> EmptyString ->
  trim (INPUT env Inputs.Mode) = "inline" \/ trim (INPUT env Inputs.Mode) = "separate" ->
  findResults env (trim (INPUT env Inputs.Path)) = Throw e ->
  run env (init_world r)
  = (Ok tt,
     mkWorld [ call_findResults (trim (INPUT env Inputs.Path)) (Throw e);
               core_error (Error_toString e) ]
       r Failure).
Proof.
  intros Hpath Hmode Hsearch.
  exact (run_search_throws_from env (init_world r) e Hpath Hmode Hsearch).
Qed.

Lemma run_search_throws_witness :
  run (broken_search_env "separate") (init_world (mkService [] 1 1))
  = (Ok tt,
     mkWorld [ call_findResults "build" (Throw search_error);
               core_error "Error: EACCES: permission denied" ]
       (mkService [] 1 1) Failure).
Proof.
  apply (run_search_throws (broken_search_env "separate") (mkService [] 1 1) search_error).
  - discriminate.
  - right. reflexivity.
  - reflexivity.
Defined.

(** X7: when a found file cannot be parsed, the files before it are parsed
    in order, the files after it are not parsed, and the run ends there:
    no batch is reported and no inline diagnostic is issued, even for the
    files that were parsed; the exit code is failure, in either mode. *)
Theorem run_parse_throws {R : Type} `{Octokit R} (env : Env) (r : R)
    (searchResult : SearchResult) (before after : list string) (f : string) (e : JsError) :
  INPUT env Inputs.Path <> EmptyString ->
  trim (INPUT env Inputs.Mode) = "inline" \/ trim (INPUT env Inputs.Mode) = "separate" ->
  findResults env (trim (INPUT env Inputs.Path)) = Ok searchResult ->
  filesToUpload searchResult = before ++ f :: after ->
  Forall (fun f' => exists anns, annotationsForPath env f' = Ok anns) before ->
  annotationsForPath env f = Throw e ->
  run env (init_world r)
  = (Ok tt,
     mkWorld
       ([ call_findResults (trim (INPUT env Inputs.Path)) (Ok searchResult);
          core_info ("With the provided path, there will be "
                       +:+ pretty (length (filesToUpload searchResult))
                       +:+ " results uploaded");
          core_debug ("Root artifact directory is " +:+ rootDirectory searchResult) ]
        ++ map (fun f' => call_annotationsForPath f' (annotationsForPath env f')) before
        ++ [ call_annotationsForPath f (Throw e);
             core_error (Error_toString e) ])
       r Failure).
Proof.
  intros Hpath Hmode Hsearch Hfiles Hbefore Hf.
  destruct (parse_all_throws env before after f e Hbefore Hf) as [Hall Hevents].
  unfold run, try_catch.
  unfold bind at 1. rewrite core_getInput_supplied by assumption.
  unfold bind at 1. rewrite core_getInput_optional.
  unfold bind at 1. rewrite core_getInput_optional.
  unfold bind at 1. rewrite core_getInput_optional.
  replace (negb (String.eqb (trim (INPUT env Inputs.Mode)) "inline")
           && negb (String.eqb (trim (INPUT env Inputs.Mode)) "separate"))
    with false by (destruct Hmode as [Hv | Hv]; rewrite Hv; reflexivity).
  unfold bind at 1. rewrite await_findResults_run, Hsearch.
  destruct (Nat.eqb_spec (length (filesToUpload searchResult)) 0) as [Hlen | _].
  { rewrite Hfiles, length_app in Hlen. simpl in Hlen. lia. }
  rewrite !bind_emit. cbn [trace remote exitCode].
  unfold bind at 1. rewrite chain_call_annotations.
  rewrite <- Hfiles in Hall, Hevents. rewrite Hall, Hevents.
  unfold core_setFailed, init_world. cbn [trace remote exitCode].
  rewrite <- !app_assoc. reflexivity.
Qed.

Lemma run_parse_throws_witness :
  let final := snd (run (broken_file_env "separate") (init_world (mkService [] 1 1))) in
  drop 3 (trace final)
  = [ call_annotationsForPath "a.xml" (Ok example_annotations);
      call_annotationsForPath "b.xml" (Throw parse_error);
      core_error "Error: Unexpected end of input" ]
  /\ write_requests (trace final) = []
  /\ exitCode final = Failure.
Proof.
  intros final. subst final.
  rewrite (run_parse_throws (broken_file_env "separate") (mkService [] 1 1)
             (mkSearchResult ["a.xml"; "b.xml"; "c.xml"] "/work")
             ["a.xml"] ["c.xml"] "b.xml" parse_error).
  - repeat split.
  - discriminate.
  - right. reflexivity.
  - reflexivity.
  - reflexivity.
  - repeat constructor. exists example_annotations. reflexivity.
  - reflexivity.
Defined.

(** ** What a run emits *)

Section EmitsOnly.
Context {R : Type} `{Octokit R}.
Variables (P : Event -> Prop) (frozen : bool).

Lemma emits_only_ret {A} (Q : A -> Prop) (a : A) :
  Q a -> emits_only (R := R) P frozen Q (ret a).
Proof.
  intros HQ w res w' [= <- <-]. split; [| split].
  - exists []. rewrite app_nil_r. split; [reflexivity | constructor].
  - reflexivity.
  - now intros a' [= <-].
Qed.

Lemma emits_only_lift {A} (Q : A -> Prop) (r : Result A) :
  (forall a, r = Ok a -> Q a) -> emits_only (R := R) P frozen Q (lift r).
Proof.
  intros HQ w res w' [= <- <-]. split; [| split].
  - exists []. rewrite app_nil_r. split; [reflexivity | constructor].
  - reflexivity.
  - exact HQ.
Qed.

Lemma emits_only_emit (ev : Event) :
  P ev -> emits_only (R := R) P frozen (fun _ => True) (emit ev).
Proof.
  intros Hev w res w' [= <- <-]. split; [| split].
  - exists [ev]. split; [reflexivity | repeat constructor; assumption].
  - reflexivity.
  - trivial.
Qed.

Lemma emits_only_bind {A B} (Q : A -> Prop) (Q' : B -> Prop)
    (m : Action R A) (k : A -> Action R B) :
  emits_only P frozen Q m ->
  (forall a, Q a -> emits_only P frozen Q' (k a)) ->
  emits_only P frozen Q' (bind m k).
Proof.
  intros Hm Hk w res w'. unfold bind.
  destruct (m w) as [[a | e] w1] eqn:Em;
    destruct (Hm _ _ _ Em) as ((evs1 & Ht1 & Hall1) & Hr1 & HQ).
  - intros Ek.
    destruct (Hk a (HQ a eq_refl) _ _ _ Ek) as ((evs2 & Ht2 & Hall2) & Hr2 & HQ').
    split; [| split].
    + exists (evs1 ++ evs2). rewrite Ht2, Ht1, app_assoc.
      split; [reflexivity | apply Forall_app; now split].
    + intros Hf. rewrite (Hr2 Hf). exact (Hr1 Hf).
    + exact HQ'.
  - intros [= <- <-]. split; [| split].
    + now exists evs1.
    + exact Hr1.
    + discriminate.
Qed.

Lemma emits_only_try_catch {A} (Q : A -> Prop) (m : Action R A)
    (h : JsError -> Action R A) :
  emits_only P frozen Q m ->
  (forall e, emits_only P frozen Q (h e)) ->
  emits_only P frozen Q (try_catch m h).
Proof.
  intros Hm Hh w res w'. unfold try_catch.
  destruct (m w) as [[a | e] w1] eqn:Em.
  - intros [= <- <-]. exact (Hm _ _ _ Em).
  - intros Eh.
    destruct (Hm _ _ _ Em) as ((evs1 & Ht1 & Hall1) & Hr1 & _).
    destruct (Hh e _ _ _ Eh) as ((evs2 & Ht2 & Hall2) & Hr2 & HQ').
    split; [| split].
    + exists (evs1 ++ evs2). rewrite Ht2, Ht1, app_assoc.
      split; [reflexivity | apply Forall_app; now split].
    + intros Hf. rewrite (Hr2 Hf). exact (Hr1 Hf).
    + exact HQ'.
Qed.

Lemma emits_only_setFailed (e : JsError) :
  P (core_error (Error_toString e)) ->
  emits_only (R := R) P frozen (fun _ => True) (core_setFailed e).
Proof.
  intros Hev w res w' [= <- <-]. split; [| split].
  - eexists. split; [reflexivity | repeat constructor; assumption].
  - reflexivity.
  - trivial.
Qed.

Lemma emits_only_getInput env i required :
  emits_only (R := R) P frozen (fun v => v = trim (INPUT env i))
    (core_getInput env i required).
Proof.
  unfold core_getInput. destruct (required && _).
  - apply emits_only_lift. discriminate.
  - now apply emits_only_ret.
Qed.

Lemma emits_only_findResults env p :
  P (call_findResults p (findResults env p)) ->
  emits_only (R := R) P frozen (fun searchResult => findResults env p = Ok searchResult)
    (await_findResults env p).
Proof.
  intros Hev. unfold await_findResults.
  eapply emits_only_bind; [now apply emits_only_emit |].
  intros _ _. now apply emits_only_lift.
Qed.

Lemma emits_only_call_annotations env f :
  P (call_annotationsForPath f (annotationsForPath env f)) ->
  emits_only (R := R) P frozen (fun _ => True) (call_annotations env f).
Proof.
  intros Hev. unfold call_annotations.
  eapply emits_only_bind; [now apply emits_only_emit |].
  intros _ _. now apply emits_only_lift.
Qed.

Lemma emits_only_for_of {A} (l : list A) (body : A -> Action R unit) :
  (forall x, emits_only P frozen (fun _ => True) (body x)) ->
  emits_only P frozen (fun _ => True) (for_of l body).
Proof.
  intros Hbody. induction l as [| x rest IH]; simpl.
  - now apply emits_only_ret.
  - eapply emits_only_bind; [apply Hbody | intros _ _; exact IH].
Qed.

Lemma emits_only_chain {A B} (fn : A -> Action R (list B)) (l : list A) :
  (forall x, emits_only P frozen (fun _ => True) (fn x)) ->
  emits_only P frozen (fun _ => True) (chain fn l).
Proof.
  intros Hfn. unfold chain.
  eapply emits_only_bind with (Q := fun _ => True).
  - induction l as [| x rest IH]; simpl.
    + now apply emits_only_ret.
    + eapply emits_only_bind; [apply Hfn | intros y _].
      eapply emits_only_bind; [exact IH | intros ys _; now apply emits_only_ret].
  - intros ys _. now apply emits_only_ret.
Qed.

Lemma emits_only_if {A} (Q : A -> Prop) (b : bool) (m1 m2 : Action R A) :
  emits_only P frozen Q m1 -> emits_only P frozen Q m2 ->
  emits_only P frozen Q (if b then m1 else m2).
Proof. now destruct b. Qed.

(** From the initial world the whole trace satisfies [P]. *)
Lemma emits_only_init {A} (Q : A -> Prop) (m : Action R A) (r : R) :
  emits_only P frozen Q m ->
  Forall P (trace (snd (m (init_world r))))
  /\ (frozen = true -> remote (snd (m (init_world r))) = r).
Proof.
  intros Hm. destruct (m (init_world r)) as [res w'] eqn:Em.
  destruct (Hm _ _ _ Em) as ((evs & Ht & Hall) & Hr & _). simpl in *.
  split; [now rewrite Ht | exact Hr].
Qed.
End EmitsOnly.

(** Calls of the client change the remote service: they fit only an action
    that is not frozen. *)
Lemma emits_only_octokit_call {R A Req} (P : Event -> Prop)
    (op : Req -> R -> Result A * R) (ev : Req -> Result A -> Event) (req : Req) :
  (forall r, P (ev req r)) ->
  emits_only P false (fun _ => True) (octokit_call op ev req).
Proof.
  intros Hev w res w'. unfold octokit_call.
  destruct (op req (remote w)) as [r s]. intros [= <- <-]. split; [| split].
  - exists [ev req r]. split; [reflexivity | repeat constructor; apply Hev].
  - discriminate.
  - trivial.
Qed.

Ltac emits_only_step solve_event :=
  first
    [ apply emits_only_getInput
    | apply emits_only_findResults; solve_event
    | apply emits_only_call_annotations; solve_event
    | apply emits_only_octokit_call; intro; solve_event
    | apply emits_only_emit; solve_event
    | apply emits_only_setFailed; solve_event
    | apply emits_only_lift; intros; exact I
    | apply emits_only_ret; exact I
    | apply emits_only_chain; intro
    | apply emits_only_for_of; intro
    | apply emits_only_if
    | eapply emits_only_bind; [| intros ? ?; subst] ].

(** The Check Reporter emits its log line and remote calls, all of them on
    target. *)
Lemma createCheck_on_target {R : Type} `{Octokit R} env name title annotations
    numErrors conclusion :
  emits_only (on_target env name) false (fun _ => True)
    (createCheck env name title annotations numErrors conclusion).
Proof.
  unfold createCheck, await_listForRef, await_create, await_update.
  eapply emits_only_bind; [apply emits_only_emit; exact I | intros _ _].
  eapply emits_only_bind; [apply emits_only_getInput | intros token _].
  eapply emits_only_bind; [apply emits_only_lift; intros; exact I | intros octokit _].
  cbv zeta.
  eapply emits_only_bind;
    [apply emits_only_octokit_call; intro; split; reflexivity | intros check_runs _].
  destruct (List.find _ check_runs).
  - apply emits_only_octokit_call. intro. split; reflexivity.
  - apply emits_only_octokit_call. intro. repeat split.
Qed.

(** The Check Reporter issues no inline diagnostic and calls neither the
    search nor the parser. *)
Lemma createCheck_remote_only {R : Type} `{Octokit R} env name title annotations
    numErrors conclusion :
  emits_only (fun ev => is_inline_diagnostic ev = false /\ is_local_call ev = false)
    false (fun _ => True)
    (createCheck env name title annotations numErrors conclusion).
Proof.
  unfold createCheck, await_listForRef, await_create, await_update.
  eapply emits_only_bind; [apply emits_only_emit; now split | intros _ _].
  eapply emits_only_bind; [apply emits_only_getInput | intros token _].
  eapply emits_only_bind; [apply emits_only_lift; intros; exact I | intros octokit _].
  cbv zeta.
  eapply emits_only_bind;
    [apply emits_only_octokit_call; intro; now split | intros check_runs _].
  destruct (List.find _ check_runs); apply emits_only_octokit_call; intro; now split.
Qed.

Lemma emits_only_weaken {R A} (P P' : Event -> Prop) (frozen : bool) (Q : A -> Prop)
    (m : Action R A) :
  (forall ev, P ev -> P' ev) -> emits_only P frozen Q m -> emits_only P' frozen Q m.
Proof.
  intros HP Hm w res w' Em.
  destruct (Hm _ _ _ Em) as ((evs & Ht & Hall) & Hr & HQ).
  split; [| split; assumption].
  exists evs. split; [assumption |]. eapply Forall_impl; eauto.
Qed.

(** The inline emitter writes log lines and diagnostics only. *)
Lemma emit_inline_local {R : Type} (frozen : bool) (a : Annotation) :
  emits_only (R := R) (fun ev => is_remote_call ev = false /\ is_local_call ev = false)
    frozen (fun _ => True) (emit_inline a).
Proof.
  unfold emit_inline.
  eapply emits_only_bind; [apply emits_only_emit; now split | intros _ _].
  apply emits_only_if; [now apply emits_only_ret | apply emits_only_emit; now split].
Qed.

(** X8: whatever the inputs, the collaborators and the service do, every
    remote request of a run concerns the repository of the context and the
    commit reported against (the head of the pull request when there is one,
    the triggering commit otherwise); every create request carries the
    configured name, and every create or update request has status
    [completed]. *)
Theorem run_on_target {R : Type} `{Octokit R} (env : Env) (r : R) :
  Forall (on_target env (trim (INPUT env Inputs.Name)))
    (trace (snd (run env (init_world r)))).
Proof.
  apply (emits_only_init (on_target env (trim (INPUT env Inputs.Name))) false
           (fun _ => True)).
  unfold run. apply emits_only_try_catch; [| intro; apply emits_only_setFailed; exact I].
  repeat first
    [ apply createCheck_on_target
    | apply (emits_only_weaken
               (fun ev => is_remote_call ev = false /\ is_local_call ev = false));
      [intros [] [? ?]; try discriminate; exact I | apply emit_inline_local]
    | emits_only_step ltac:(exact I) ].
Qed.

(** X9: unless the mode is [inline], a run issues no inline diagnostic,
    whatever the collaborators and the service do. *)
Theorem run_diagnostics_only_inline {R : Type} `{Octokit R} (env : Env) (r : R) :
  trim (INPUT env Inputs.Mode) <> "inline" ->
  Forall (fun ev => is_inline_diagnostic ev = false)
    (trace (snd (run env (init_world r)))).
Proof.
  intros Hmode. apply String.eqb_neq in Hmode.
  apply (emits_only_init (fun ev => is_inline_diagnostic ev = false) false
           (fun _ => True)).
  unfold run. apply emits_only_try_catch;
    [| intro; apply emits_only_setFailed; reflexivity].
  eapply emits_only_bind; [apply emits_only_getInput | intros path ->].
  eapply emits_only_bind; [apply emits_only_getInput | intros mode ->].
  eapply emits_only_bind; [apply emits_only_getInput | intros name ->].
  eapply emits_only_bind; [apply emits_only_getInput | intros title ->].
  rewrite Hmode. cbv iota.
  repeat first
    [ apply (emits_only_weaken
               (fun ev => is_inline_diagnostic ev = false /\ is_local_call ev = false));
      [tauto | apply createCheck_remote_only]
    | emits_only_step ltac:(reflexivity) ].
Qed.

Lemma run_diagnostics_only_inline_witness :
  let env := example_env "separate" example_annotations in
  trim (INPUT env Inputs.Mode) <> "inline"
  /\ Forall (fun ev => is_inline_diagnostic ev = false)
       (trace (snd (run env (init_world (mkService [] 1 5))))).
Proof.
  intros env.
  assert (Hmode : trim (INPUT env Inputs.Mode) <> "inline") by discriminate.
  split; [exact Hmode |].
  exact (run_diagnostics_only_inline env (mkService [] 1 5) Hmode).
Defined.

(** X10: unless the mode is [separate], a run makes no remote call and
    leaves the remote service as it was, whatever the collaborators do. *)
Theorem run_remote_only_separate {R : Type} `{Octokit R} (env : Env) (r : R) :
  trim (INPUT env Inputs.Mode) <> "separate" ->
  Forall (fun ev => is_remote_call ev = false) (trace (snd (run env (init_world r))))
  /\ remote (snd (run env (init_world r))) = r.
Proof.
  intros Hmode. apply String.eqb_neq in Hmode.
  destruct (emits_only_init (fun ev => is_remote_call ev = false) true
              (fun _ : unit => True) (run env) r) as [Hall Hremote].
  - unfold run. apply emits_only_try_catch;
      [| intro; apply emits_only_setFailed; reflexivity].
    eapply emits_only_bind; [apply emits_only_getInput | intros path ->].
    eapply emits_only_bind; [apply emits_only_getInput | intros mode ->].
    eapply emits_only_bind; [apply emits_only_getInput | intros name ->].
    eapply emits_only_bind; [apply emits_only_getInput | intros title ->].
    rewrite Hmode. cbv iota.
    repeat first
      [ apply (emits_only_weaken
                 (fun ev => is_remote_call ev = false /\ is_local_call ev = false));
        [tauto | apply emit_inline_local]
      | emits_only_step ltac:(reflexivity) ].
  - split; [exact Hall | exact (Hremote eq_refl)].
Qed.

Lemma run_remote_only_separate_witness :
  let env := broken_file_env "inline" in
  let r := mkService [CheckRun.mk 7 "Lint"] 8 3 in
  trim (INPUT env Inputs.Mode) <> "separate"
  /\ Forall (fun ev => is_remote_call ev = false) (trace (snd (run env (init_world r))))
  /\ remote (snd (run env (init_world r))) = r.
Proof.
  intros env r.
  assert (Hmode : trim (INPUT env Inputs.Mode) <> "separate") by discriminate.
  split; [exact Hmode |].
  exact (run_remote_only_separate env r Hmode).
Defined.

(** ** Parsing in order *)



(** ** Without a client *)

(** X12: in separate mode, when [getOctokit] throws, the run logs the
    upload line of the first batch and ends there: no remote call is made,
    no later batch is tried, and the exit code is failure. *)
Theorem run_client_throws {R : Type} `{Octokit R} (env : Env) (r : R)
    (searchResult : SearchResult) (annotations first : list Annotation)
    (others : list (list Annotation)) (e : JsError) :
  reaches_dispatch env "separate" searchResult annotations ->
  groupAnnotations MAX_ANNOTATIONS_PER_REQUEST annotations = Ok (first :: others) ->
  getOctokit (trim (INPUT env Inputs.Token)) = Throw e ->
  run env (init_world r)
  = (Ok tt,
     mkWorld
       (preamble env searchResult annotations (S (length others))
        ++ [ core_info ("Uploading " +:+ pretty (length first) +:+ " / "
                          +:+ pretty (length annotations)
                          +:+ " annotations to GitHub as "
                          +:+ trim (INPUT env Inputs.Name) +:+ " with conclusion "
                          +:+ Conclusion.value (getConclusion annotations));
             core_error (Error_toString e) ])
       r Failure).
Proof.
  intros Hready Hgroup Hclient.
  rewrite (run_dispatch env (init_world r) "separate" searchResult annotations
             (first :: others)) by (assumption || now right).
  change (String.eqb "separate" "separate") with true. cbv iota.
  unfold try_catch. cbn [for_of]. unfold bind at 1.
  rewrite (createCheck_client_throws env _ _ first _ _ _ e Hclient).
  unfold core_setFailed, uploading. cbn [trace remote exitCode init_world app length].
  rewrite <- app_assoc. reflexivity.
Qed.

Lemma run_client_throws_witness :
  let env := no_token_env sixty_notices in
  let final := snd (run env (init_world (mkService [] 1 5))) in
  reaches_dispatch env "separate" example_search sixty_notices
  /\ drop 6 (trace final)
     = [ core_info "Uploading 50 / 60 annotations to GitHub as Lint with conclusion success";
         core_error "Error: Parameter token or opts.auth is required" ]
  /\ exitCode final = Failure.
Proof.
  intros env final.
  assert (Hready : reaches_dispatch env "separate" example_search sixty_notices).
  { split; [discriminate |]. split; [reflexivity |]. split; [reflexivity |].
    split; [discriminate |]. exists [sixty_notices]. split; reflexivity. }
  split; [exact Hready |]. subst final.
  rewrite (run_client_throws env (mkService [] 1 5) example_search sixty_notices
             (take 50 sixty_notices) [drop 50 sixty_notices] token_required Hready).
  - split; reflexivity.
  - vm_compute. reflexivity.
  - reflexivity.
Defined.

(** ** Two remote calls per batch *)

Section RemoteCalls.
Context {R : Type} `{Octokit R}.
Variable env : Env.
Variables (name title : string) (numErrors : nat) (conclusion : Conclusion.t).

(** A call of the Check Reporter that completes normally made two remote
    calls: the listing, then one write. *)
Lemma createCheck_ok_calls (annotations : list Annotation) (w w' : World R) :
  createCheck env name title annotations numErrors conclusion w = (Ok tt, w') ->
  exists evs,
    trace w' = trace w ++ evs
    /\ map is_write_call (List.filter is_remote_call evs) = [false; true].
Proof.
  destruct (getOctokit (client_token env)) as [octokit | e] eqn:Hclient.
  - destruct (checks_listForRef octokit (listing env) (remote w))
      as [[check_runs | e] s] eqn:Hlist.
    + destruct (List.find (fun check => String.eqb (CheckRun.name check) name) check_runs)
        as [existing |] eqn:Hfind.
      * rewrite (createCheck_updates env name title annotations numErrors conclusion
                   w octokit check_runs s existing Hclient Hlist Hfind).
        intros [= _ <-]. eexists. split; reflexivity.
      * rewrite (createCheck_creates env name title annotations numErrors conclusion
                   w octokit check_runs s Hclient Hlist Hfind).
        intros [= _ <-]. eexists. split; reflexivity.
    + rewrite (createCheck_list_throws env name title annotations numErrors conclusion
                 w octokit e s Hclient Hlist).
      discriminate.
  - rewrite (createCheck_client_throws env name title annotations numErrors conclusion
               w e Hclient).
    discriminate.
Qed.

Lemma for_of_createCheck_ok_calls (batches : list (list Annotation)) (w w' : World R) :
  for_of batches (fun annotationSet =>
    createCheck env name title annotationSet numErrors conclusion) w = (Ok tt, w') ->
  exists evs,
    trace w' = trace w ++ evs
    /\ map is_write_call (List.filter is_remote_call evs)
       = flat_map (fun _ => [false; true]) batches.
Proof.
  revert w. induction batches as [| b rest IH]; intros w; cbn [for_of flat_map].
  - intros [= <-]. exists []. rewrite app_nil_r. split; reflexivity.
  - unfold bind.
    destruct (createCheck env name title b numErrors conclusion w)
      as [[[] | e] w1] eqn:Hcall; [| discriminate].
    intros Hrest.
    destruct (createCheck_ok_calls b w w1 Hcall) as (evs1 & Ht1 & Hc1).
    destruct (IH _ Hrest) as (evs2 & Ht2 & Hc2).
    exists (evs1 ++ evs2). rewrite Ht2, Ht1, app_assoc. split; [reflexivity |].
    rewrite List.filter_app, map_app, Hc1, Hc2. reflexivity.
Qed.
End RemoteCalls.

(** X13: a separate-mode run that ends with exit code success made exactly
    two remote calls per batch, in this order: for each batch in turn a
    listing of the check runs, then one create or update.  The listing is
    repeated for every batch. *)
Theorem run_separate_two_calls_per_batch {R : Type} `{Octokit R} (env : Env) (r : R)
    (searchResult : SearchResult) (annotations : list Annotation)
    (groupedAnnotations : list (list Annotation)) :
  reaches_dispatch env "separate" searchResult annotations ->
  groupAnnotations MAX_ANNOTATIONS_PER_REQUEST annotations = Ok groupedAnnotations ->
  exitCode (snd (run env (init_world r))) = Success ->
  map is_write_call
    (List.filter is_remote_call (trace (snd (run env (init_world r)))))
  = flat_map (fun _ => [false; true]) groupedAnnotations.
Proof.
  intros Hready Hgroup.
  rewrite (run_dispatch env (init_world r) "separate" searchResult annotations
             groupedAnnotations) by (assumption || now right).
  change (String.eqb "separate" "separate") with true. cbv iota.
  destruct (preamble_kind env searchResult annotations (length groupedAnnotations))
    as (Hlocal & _ & _).
  unfold try_catch.
  match goal with |- context [for_of ?l ?body ?w] =>
    destruct (for_of l body w) as [[[] | e] w1] eqn:Hloop
  end; cbn [snd core_setFailed exitCode]; [| discriminate].
  intros _.
  destruct (for_of_createCheck_ok_calls env _ _ _ _ _ _ _ Hloop) as (evs & Ht & Hcalls).
  cbn [trace init_world app] in Ht. rewrite Ht, List.filter_app.
  rewrite (filter_none is_remote_call _ Hlocal). exact Hcalls.
Qed.

Lemma run_separate_two_calls_per_batch_witness :
  let env := example_env "separate" sixty_notices in
  let final := snd (run env (init_world (mkService [] 1 5))) in
  exitCode final = Success
  /\ map is_write_call (List.filter is_remote_call (trace final))
     = [false; true; false; true].
Proof.
  intros env final.
  assert (Hexit : exitCode final = Success) by (vm_compute; reflexivity).
  split; [exact Hexit |].
  apply (run_separate_two_calls_per_batch env (mkService [] 1 5) example_search
           sixty_notices [take 50 sixty_notices; drop 50 sixty_notices]).
  - apply (example_reaches_dispatch "separate" sixty_notices eq_refl).
  - vm_compute. reflexivity.
  - exact Hexit.
Defined.
